(** * Shallow embedding of paper-gene-extraction

    Gene mention extraction ([gene_extractor.py]), the disease filters and the
    gene/disease linker ([gene_metadata.py]), the best-effort enrichment
    fetches, the identifier check of [article_retriever.py] and the CSV
    writer ([writer.py]).

    Python strings are modelled as [list ascii] (the text handled is ASCII);
    character offsets and numbers as [Z]; JSON documents as [jvalue];
    Python exceptions as [exn], and a function that may raise returns a
    [result]. Network access is an oracle [http_get] bound in a Section. *)

From Stdlib Require Import List Ascii String ZArith Bool Lia.
Import ListNotations.
Open Scope string_scope.
Open Scope list_scope.
Open Scope Z_scope.
Set Warnings "-register-all".

(** ** Python strings *)

Definition str := list ascii.

(** String literals are written as Rocq strings and read as [str]. *)
Definition lit (s : string) : str := list_ascii_of_string s.
Coercion lit : string >-> str.

Definition str_eqb (a b : str) : bool :=
  if list_eq_dec ascii_dec a b then true else false.

Definition char_in (cs : str) (c : ascii) : bool :=
  existsb (fun d => Ascii.eqb c d) cs.

Definition mem_str (s : str) (l : list str) : bool :=
  existsb (str_eqb s) l.

Definition code (c : ascii) : nat := nat_of_ascii c.

(** Python's [str.isspace] on ASCII: \t \n \v \f \r, \x1c-\x1f and space;
    also the class [\s] of a [str] pattern. *)
Definition is_space (c : ascii) : bool :=
  let n := code c in
  ((9 <=? n) && (n <=? 13))%nat || ((28 <=? n) && (n <=? 32))%nat.

Definition is_lower (c : ascii) : bool :=
  let n := code c in ((97 <=? n) && (n <=? 122))%nat.
Definition is_upper (c : ascii) : bool :=
  let n := code c in ((65 <=? n) && (n <=? 90))%nat.
Definition is_digit (c : ascii) : bool :=
  let n := code c in ((48 <=? n) && (n <=? 57))%nat.
Definition is_alpha (c : ascii) : bool := is_lower c || is_upper c.

(** [\w] of a [str] pattern (ASCII part): letters, digits and underscore. *)
Definition is_word (c : ascii) : bool :=
  is_alpha c || is_digit c || Ascii.eqb c "_"%char.

Definition lower_char (c : ascii) : ascii :=
  if is_upper c then ascii_of_nat (code c + 32) else c.
Definition upper_char (c : ascii) : ascii :=
  if is_lower c then ascii_of_nat (code c - 32) else c.

(** [str.lower] and [str.upper]. *)
Definition lower (s : str) : str := map lower_char s.
Definition upper (s : str) : str := map upper_char s.

(** [str.isupper]: at least one cased character and no lower-case one. *)
Definition isupper (s : str) : bool :=
  existsb is_alpha s && forallb (fun c => negb (is_lower c)) s.


(** [s.lstrip(chars)], [s.rstrip(chars)] and [s.strip(chars)] for a
    predicate on characters. *)
Fixpoint lstrip_by (p : ascii -> bool) (s : str) : str :=
  match s with
  | [] => []
  | c :: r => if p c then lstrip_by p r else s
  end.
Definition rstrip_by (p : ascii -> bool) (s : str) : str :=
  rev (lstrip_by p (rev s)).
Definition strip_by (p : ascii -> bool) (s : str) : str :=
  rstrip_by p (lstrip_by p s).

(** [s.strip()] and [s.strip(chars)]. *)
Definition strip (s : str) : str := strip_by is_space s.
Definition strip_chars (cs : str) (s : str) : str := strip_by (char_in cs) s.

(** [s.startswith(k)] and [s.endswith(k)]. *)
Fixpoint startswith (s k : str) : bool :=
  match k, s with
  | [], _ => true
  | d :: k', c :: s' => Ascii.eqb c d && startswith s' k'
  | _ :: _, [] => false
  end.
Definition endswith (s k : str) : bool := startswith (rev s) (rev k).

(** [k in s] for strings: [k] occurs in [s]. *)
Fixpoint contains (s k : str) : bool :=
  startswith s k || match s with [] => false | _ :: r => contains r k end.

(** Index of the first occurrence of [k] in [s]. *)
Fixpoint find_sub (s k : str) : option nat :=
  if startswith s k then Some 0%nat
  else match s with
       | [] => None
       | _ :: r => option_map S (find_sub r k)
       end.

(** [s.rsplit(k, 1)[0]]: the text before the last occurrence of [k]
    (the whole string when [k] does not occur). The last occurrence in [s]
    is the first occurrence of [rev k] in [rev s]. *)
Definition rsplit_head (s k : str) : str :=
  match find_sub (rev s) (rev k) with
  | Some i => rev (skipn (i + List.length k) (rev s))
  | None => s
  end.

(** [s[a:b]] for [0 <= a <= b]. *)
Definition slice (s : str) (a b : nat) : str := firstn (b - a) (skipn a s).

(** [re.split(r"[\s-]+", s)]: the pieces between maximal runs of
    whitespace and hyphens (an empty piece at either end when [s] starts or
    ends with a separator). [after_sep] records that the previous character
    was a separator, so a run produces one split only. *)
Definition is_sep (c : ascii) : bool := is_space c || Ascii.eqb c "-"%char.

Definition cons_head (c : ascii) (l : list str) : list str :=
  match l with
  | t :: ts => (c :: t) :: ts
  | [] => [[c]]
  end.

Fixpoint re_split_go (after_sep : bool) (s : str) : list str :=
  match s with
  | [] => [[]]
  | c :: r =>
      if is_sep c then
        if after_sep then re_split_go true r else [] :: re_split_go true r
      else cons_head c (re_split_go false r)
  end.
Definition re_split_sep (s : str) : list str := re_split_go false s.

(** ** [_is_generic] (gene_metadata.py) *)

Definition GENERIC_PARTS : list str := map lit
  [ "single"; "system"; "single-system"; "multi"; "multisystem";
    "multi-system"; "systemic"; "common"; "rare"; "genetic"; "hereditary";
    "familial"; "unknown"; "autosomal"; "dominant"; "recessive"; "tall";
    "stature"; "short" ].

Definition generic_part (p : str) : bool := mem_str p GENERIC_PARTS.

Definition KEYWORDS : list str := map lit ["disease"; "syndrome"; "disorder"].

(** The loop [for kw in ("disease", "syndrome", "disorder")]: [true] is
    [return True], [false] is leaving the loop. *)
Fixpoint generic_kw_loop (t : str) (kws : list str) : bool :=
  match kws with
  | [] => false
  | kw :: ks =>
      if endswith t kw then
        let prefix := strip_chars " -;," (rsplit_head t kw) in
        match prefix with
        | _ :: _ =>
            if forallb generic_part (re_split_sep prefix) then true
            else generic_kw_loop t ks
        | [] => true
        end
      else generic_kw_loop t ks
  end.

Definition is_generic (term : str) : bool :=
  let orig := strip term in
  let t := lower orig in
  let special :=
    endswith orig " syndrome" &&
    (let prefix :=
       strip_chars " ,;:-" (firstn (List.length orig - List.length (lit " syndrome")) orig) in
     match prefix with [] => false | _ => isupper prefix end) in
  if special then false
  else if mem_str t KEYWORDS then true
  else if generic_kw_loop t KEYWORDS then true
  else
    let parts := re_split_sep t in
    (Nat.leb (List.length parts) 2) && forallb generic_part parts.

(** ** Python values, exceptions and HTTP responses *)

(** A decoded JSON document ([resp.json()]); JSON numbers are integers. *)
Inductive jvalue : Type :=
| JNull
| JBool (b : bool)
| JNum (z : Z)
| JStr (s : str)
| JArr (l : list jvalue)
| JObj (kvs : list (str * jvalue)).

(** The exceptions the code can raise. [JSONDecodeError] is the error of
    [resp.json()] on a body that is not JSON ([requests]'
    [JSONDecodeError], a subclass of [ValueError]). *)
Inductive exn : Type :=
| AttributeError
| TypeError
| KeyError
| IndexError
| ValueError (msg : str)
| JSONDecodeError
| HTTPError
| RequestException
| RuntimeError (msg : str)
| StopIteration.


Inductive result (A : Type) : Type :=
| Ok (a : A)
| Raise (e : exn).
Arguments Ok {A} a.
Arguments Raise {A} e.

Definition bind {A B} (m : result A) (k : A -> result B) : result B :=
  match m with Ok a => k a | Raise e => Raise e end.
Notation "x <- m ;; k" := (bind m (fun x => k))
  (at level 61, m at next level, right associativity).

(** [try: m except Exception: h]. *)
Definition try_except {A} (m : result A) (h : result A) : result A :=
  match m with Ok a => Ok a | Raise _ => h end.

(** Lookup in a decoded JSON object: a duplicated key keeps its last value. *)
Fixpoint obj_lookup (kvs : list (str * jvalue)) (k : str) : option jvalue :=
  match kvs with
  | [] => None
  | (k', v) :: r =>
      match obj_lookup r k with
      | Some w => Some w
      | None => if str_eqb k k' then Some v else None
      end
  end.

(** [v.get(k, d)]: only dictionaries have a [get] method. *)
Definition py_get (v : jvalue) (k : str) (d : jvalue) : result jvalue :=
  match v with
  | JObj kvs => Ok (match obj_lookup kvs k with Some w => w | None => d end)
  | _ => Raise AttributeError
  end.

(** Truth value of a decoded JSON value. *)
Definition py_truthy (v : jvalue) : bool :=
  match v with
  | JNull => false
  | JBool b => b
  | JNum z => negb (z =? 0)
  | JStr s => match s with [] => false | _ => true end
  | JArr l => match l with [] => false | _ => true end
  | JObj kvs => match kvs with [] => false | _ => true end
  end.

(** [v > 0]: numbers and booleans compare, the rest raise [TypeError]. *)
Definition py_gt_zero (v : jvalue) : result bool :=
  match v with
  | JNum z => Ok (0 <? z)
  | JBool b => Ok b
  | _ => Raise TypeError
  end.

(** What [requests.get] gives: a raised [requests.RequestException]
    (connection error, timeout) or a response with its status code and
    body text. *)
Inductive response : Type :=
| NetError
| Resp (status : Z) (text : str).

Definition EUTILS_ESEARCH : str :=
  "https://eutils.ncbi.nlm.nih.gov/entrez/eutils/esearch.fcgi".
Definition OLS_SEARCH : str := "https://www.ebi.ac.uk/ols/api/search".

Section Network.

(** [requests.get(url, params=...)] and the JSON decoder of [resp.json()]. *)
Variable http_get : str -> list (str * str) -> response.
Variable json_loads : str -> option jvalue.

Definition resp_json (text : str) : result jvalue :=
  match json_loads text with Some v => Ok v | None => Raise JSONDecodeError end.

(** ** [is_valid_disease_name] (gene_metadata.py) *)

Definition medgen_check (query : str) : bool :=
  match http_get EUTILS_ESEARCH [(lit "db", lit "medgen"); (lit "term", query)] with
  | Resp st txt => (st =? 200) && contains txt "<Id>"
  | NetError => false
  end.

Definition mesh_check (query : str) : bool :=
  match http_get EUTILS_ESEARCH
          [(lit "db", lit "mesh"); (lit "term", query ++ lit "[MeSH Terms]")] with
  | Resp st txt => (st =? 200) && contains txt "<Id>"
  | NetError => false
  end.

(** The OLS block; an exception inside [try] counts as "not found". *)
Definition ols_check (query : str) : bool :=
  match http_get OLS_SEARCH [(lit "q", query); (lit "ontology", lit "doid")] with
  | Resp st txt =>
      if st =? 200 then
        match (data <- resp_json txt ;;
               r <- py_get data "response" (JObj []) ;;
               n <- py_get r "numFound" (JNum 0) ;;
               py_gt_zero n) with
        | Ok b => b
        | Raise _ => false
        end
      else false
  | NetError => false
  end.

Definition is_valid_disease_name (term : str) : bool :=
  let query := strip term in
  match query with
  | [] => false
  | _ => medgen_check query || mesh_check query || ols_check query
  end.

End Network.

(** ** Gene records and the parsed document *)

(** A gene dictionary of [extract_genes]; [diseases] is the key that
    [associate_diseases] adds with [setdefault], [None] while absent. *)
Record gene : Type := mk_gene {
  symbol : str;
  hgnc_id : option Z;
  mentions : list (Z * Z);
  diseases : option (list str)
}.

(** A NER entity of the spaCy document: label, text, character offsets and
    the character span of its sentence ([ent.sent]). *)
Record span : Type := mk_span {
  label : str;
  ent_text : str;
  start_char : Z;
  end_char : Z;
  sent : Z * Z
}.

(** [doc.sents] as character spans, and [doc.ents]. *)
Record doc : Type := mk_doc {
  sents : list (Z * Z);
  ents : list span
}.

(** [s.add(x)] on a set, as a duplicate-free list. *)
Definition set_add (x : str) (l : list str) : list str :=
  if mem_str x l then l else l ++ [x].

(** [gene.setdefault("diseases", set()).add(name)] *)
Definition add_disease (name : str) (g : gene) : gene :=
  {| symbol := symbol g; hgnc_id := hgnc_id g; mentions := mentions g;
     diseases := Some (set_add name (match diseases g with
                                     | Some d => d | None => [] end)) |}.

(** Mutating the [i]-th dictionary of the list in place. *)
Fixpoint update_nth {A} (i : nat) (f : A -> A) (l : list A) : list A :=
  match l, i with
  | [], _ => []
  | x :: r, O => f x :: r
  | x :: r, S j => x :: update_nth j f r
  end.

Fixpoint find_index {A} (p : A -> bool) (l : list A) : option nat :=
  match l with
  | [] => None
  | x :: r => if p x then Some O else option_map S (find_index p r)
  end.

(** [m_start >= s_start and m_end <= s_end] *)
Definition inside (w : Z * Z) (m : Z * Z) : bool :=
  (fst w <=? fst m) && (snd m <=? snd w).

(** ** [associate_diseases] (gene_metadata.py) *)

(** The disease name of an entity: [ent.text.strip().strip('.,;:')]. *)
Definition disease_name_of (ent : span) : str :=
  strip_chars ".,;:" (strip (ent_text ent)).

(** [genes_in_sentence]: the genes (by position in [genes]) with a mention
    inside the sentence span [w], in list order. *)
Definition genes_in_window (w : Z * Z) (genes : list gene) : list (nat * gene) :=
  filter (fun ig => existsb (inside w) (mentions (snd ig)))
         (combine (seq 0 (List.length genes)) genes).

(** The closest-gene loop. [best] is [closest_gene], [min] is
    [min_distance] ([None] is [float('inf')]). Distances are doubled:
    [abs((m_start + m_end)/2 - (s + e)/2)] is compared through
    [|m_start + m_end - (s + e)|], which orders the same way. Only the first
    mention of a gene inside the sentence is measured ([break]). *)
(** [dist < min_distance], with [None] for [float('inf')]. *)
Definition lt_inf (d : Z) (min : option Z) : bool :=
  match min with None => true | Some m => d <? m end.

Fixpoint closest_go (w : Z * Z) (dc : Z) (gs : list (nat * gene))
    (best : option nat) (min : option Z) : option nat :=
  match gs with
  | [] => best
  | (i, g) :: r =>
      match find (inside w) (mentions g) with
      | Some (ms, me) =>
          let dist := Z.abs (ms + me - dc) in
          if lt_inf dist min then closest_go w dc r (Some i) (Some dist)
          else closest_go w dc r best min
      | None => closest_go w dc r best min
      end
  end.

(** [sent_index]: the first sentence starting where the entity's does. *)
Definition sent_index (sentences : list (Z * Z)) (s0 : Z) : option nat :=
  find_index (fun s => fst s =? s0) sentences.

Definition str_dec := list_eq_dec ascii_dec.

(** [{gene["symbol"] for gene in genes for (ms, me) in gene["mentions"]
      if ms >= p_start and me <= p_end}] *)
Definition symbols_in (genes : list gene) (w : Z * Z) : list str :=
  nodup str_dec
    (flat_map (fun g => map (fun _ => symbol g) (filter (inside w) (mentions g)))
              genes).

(** [if len(prev_genes) == 1: sym = prev_genes.pop();
        linked_gene = next(g for g in genes if g["symbol"] == sym)];
    [next] always finds a gene here, since [sym] was read from [genes]. *)
Definition unique_gene_in (genes : list gene) (w : Z * Z) : option nat :=
  match symbols_in genes w with
  | [sym] => find_index (fun g => str_eqb (symbol g) sym) genes
  | _ => None
  end.

(** The adjacent-sentence fallback, from [sent_index] on. *)
Definition adjacent_link (sentences : list (Z * Z)) (genes : list gene)
    (k : nat) : option nat :=
  let prev :=
    if (0 <? k)%nat then
      match nth_error sentences (k - 1) with
      | Some pw => unique_gene_in genes pw
      | None => None
      end
    else None in
  match prev with
  | Some j => Some j
  | None =>
      if (k <? List.length sentences - 1)%nat then
        match nth_error sentences (k + 1) with
        | Some nw => unique_gene_in genes nw
        | None => None
        end
      else None
  end.

(** The linking part of the loop body, for an accepted entity. *)
Definition link (sentences : list (Z * Z)) (genes : list gene) (ent : span)
    (name : str) : list gene :=
  let w := sent ent in
  match genes_in_window w genes with
  | (_ :: _) as gis =>
      match closest_go w (start_char ent + end_char ent) gis None None with
      | Some i => update_nth i (add_disease name) genes
      | None => genes
      end
  | [] =>
      match sent_index sentences (fst w) with
      | None => genes
      | Some k =>
          match adjacent_link sentences genes k with
          | Some j => update_nth j (add_disease name) genes
          | None => genes
          end
      end
  end.

Section Linker.

Variable http_get : str -> list (str * str) -> response.
Variable json_loads : str -> option jvalue.

(** The filters of the loop body: label, empty name, generic term, and the
    database check. *)
Definition accepts (ent : span) : bool :=
  let name := disease_name_of ent in
  str_eqb (label ent) "DISEASE" &&
  match name with [] => false | _ => true end &&
  negb (is_generic name) &&
  is_valid_disease_name http_get json_loads name.

(** One iteration of [for ent in doc.ents]. *)
Definition process_ent (sentences : list (Z * Z)) (genes : list gene)
    (ent : span) : list gene :=
  if negb (str_eqb (label ent) "DISEASE") then genes
  else
    let name := disease_name_of ent in
    match name with
    | [] => genes
    | _ =>
        if is_generic name then genes
        else if negb (is_valid_disease_name http_get json_loads name) then genes
        else link sentences genes ent name
    end.

Definition associate_diseases (genes : list gene) (d : doc) : list gene :=
  fold_left (process_ent (sents d)) (ents d) genes.

End Linker.

(** ** [extract_genes] (gene_extractor.py) *)

(** The two patterns are matched by hand, position by position, the way
    [re] tries them: ASCII text, positions as [nat]. *)

Fixpoint count_while (f : ascii -> bool) (s : str) : nat :=
  match s with
  | c :: r => if f c then S (count_while f r) else O
  | [] => O
  end.

Definition is_word_at (s : str) (i : nat) : bool :=
  match nth_error s i with Some c => is_word c | None => false end.

(** [\b] at position [p]. *)
Definition wb (s : str) (p : nat) : bool :=
  xorb (match p with O => false | S q => is_word_at s q end) (is_word_at s p).

(** [[A-Z0-9-]], and the same class under [re.IGNORECASE]. *)
Definition gene_char (c : ascii) : bool :=
  is_upper c || is_digit c || Ascii.eqb c "-"%char.
Definition gene_char_ci (c : ascii) : bool :=
  is_alpha c || is_digit c || Ascii.eqb c "-"%char.

(** [int(...)] of a string of ASCII digits. *)
Definition digits_value (s : str) : Z :=
  fold_left (fun acc c => 10 * acc + Z.of_nat (code c - 48)) s 0.

(** [\b([A-Z0-9-]+)\s*\([^)]*HGNC:(\d+)\)] tried at [p]: group 1 span,
    [int(group 2)] and the end of the match. Group 1 is the maximal run of
    the class (a shorter run is followed by a class character, which is
    neither [\s] nor [(]); [[^)]*] stops at the first [)], which must close
    the match right after the digits of [HGNC:]. *)
Definition match_explicit (s : str) (p : nat) : option ((nat * nat * Z) * nat) :=
  if negb (wb s p) then None else
  let q := (p + count_while gene_char (skipn p s))%nat in
  if Nat.eqb q p then None else
  let r := (q + count_while is_space (skipn q s))%nat in
  match nth_error s r with
  | Some c =>
      if Ascii.eqb c "("%char then
        let c1 := (r + 1 + count_while (fun d => negb (Ascii.eqb d ")"%char))
                                       (skipn (r + 1) s))%nat in
        match nth_error s c1 with
        | Some _ =>
            let nd := count_while is_digit (rev (slice s (r + 1) c1)) in
            let k := (c1 - nd)%nat in
            if Nat.eqb nd 0 then None
            else if Nat.leb (r + 1 + 5) k && str_eqb (slice s (k - 5) k) "HGNC:"
            then Some ((p, q, digits_value (slice s k c1)), S c1)
            else None
        | None => None
        end
      else None
  | None => None
  end.

(** [s] read from [p] starts with [w] ignoring case ([w] in lower case). *)
Definition ci_at (s : str) (p : nat) (w : str) : bool :=
  startswith (lower (skipn p s)) w.

Definition ws_run (s : str) (p : nat) : nat := count_while is_space (skipn p s).

(** [([A-Z0-9-]+)\b] under [re.IGNORECASE] at [g]: the greedy run, given
    back one character at a time until [\b] holds. *)
Fixpoint longest_wb (s : str) (g l : nat) : option nat :=
  match l with
  | O => None
  | S l' => if wb s (g + l) then Some l else longest_wb s g l'
  end.

Definition gene_group_at (s : str) (g : nat) : option ((nat * nat) * nat) :=
  match longest_wb s g (count_while gene_char_ci (skipn g s)) with
  | Some l => Some ((g, g + l)%nat, (g + l)%nat)
  | None => None
  end.

Fixpoint first_some {A} (l : list (option A)) : option A :=
  match l with
  | [] => None
  | Some a :: _ => Some a
  | None :: r => first_some r
  end.

(** [(?:the\s+|a\s+)?([A-Z0-9-]+)\b] at [q]: the optional group is tried
    first ([the], then [a]), then skipped. *)
Definition article_then_gene (s : str) (q : nat) (w : str) : option ((nat * nat) * nat) :=
  if ci_at s q w then
    let n := ws_run s (q + List.length w) in
    if Nat.eqb n 0 then None else gene_group_at s (q + List.length w + n)
  else None.

(** [\s+in\s+(?:the\s+|a\s+)?([A-Z0-9-]+)\b] at [q]. *)
Definition context_rest (s : str) (q : nat) : option ((nat * nat) * nat) :=
  let n1 := ws_run s q in
  if Nat.eqb n1 0 then None else
  let q1 := (q + n1)%nat in
  if negb (ci_at s q1 "in") then None else
  let n2 := ws_run s (q1 + 2) in
  if Nat.eqb n2 0 then None else
  let q3 := (q1 + 2 + n2)%nat in
  first_some [article_then_gene s q3 "the"; article_then_gene s q3 "a";
              gene_group_at s q3].

Definition CONTEXT_WORDS : list str :=
  map lit ["variant"; "variants"; "mutation"; "mutations"; "vus"; "vuss"].

(** The context pattern tried at [p]: the alternatives in order. *)
Definition match_context (s : str) (p : nat) : option ((nat * nat) * nat) :=
  first_some (map (fun a => if ci_at s p a then context_rest s (p + List.length a)
                            else None) CONTEXT_WORDS).

(** [pattern.finditer(s)]: tried at every position from [p] on, resuming
    at the end of each match (matches are never empty). *)
Fixpoint finditer {A} (m : str -> nat -> option (A * nat)) (s : str)
    (fuel p : nat) : list A :=
  match fuel with
  | O => []
  | S f =>
      if Nat.ltb (List.length s) p then []
      else match m s p with
           | Some (a, e) => a :: finditer m s f e
           | None => finditer m s f (S p)
           end
  end.

Definition finditer_all {A} (m : str -> nat -> option (A * nat)) (s : str) : list A :=
  finditer m s (S (List.length s)) 0.

(** The [genes] dictionary in insertion order:
    symbol -> (hgnc_id, mentions). *)
Definition gene_dict := list (str * (option Z * list (Z * Z))).

Fixpoint dict_find (d : gene_dict) (k : str) : option (option Z * list (Z * Z)) :=
  match d with
  | [] => None
  | (k', v) :: r => if str_eqb k k' then Some v else dict_find r k
  end.

(** [d[k] = v]: replaced in place, or appended when new. *)
Fixpoint dict_set (d : gene_dict) (k : str) (v : option Z * list (Z * Z)) : gene_dict :=
  match d with
  | [] => [(k, v)]
  | (k', v') :: r => if str_eqb k k' then (k', v) :: r else (k', v') :: dict_set r k v
  end.

Definition add_explicit (text : str) (d : gene_dict) (mt : nat * nat * Z) : gene_dict :=
  let '(a, b, h) := mt in
  let sym := upper (slice text a b) in
  let entry := match dict_find d sym with
               | None => (Some h, [])
               | Some (None, ms) => (Some h, ms)
               | Some (Some h0, ms) => (Some h0, ms)
               end in
  dict_set d sym (fst entry, snd entry ++ [(Z.of_nat a, Z.of_nat b)]).

Definition add_context (text : str) (d : gene_dict) (mt : nat * nat) : gene_dict :=
  let '(a, b) := mt in
  let sym := upper (slice text a b) in
  let entry := match dict_find d sym with
               | None => (None, [])
               | Some e => e
               end in
  dict_set d sym (fst entry, snd entry ++ [(Z.of_nat a, Z.of_nat b)]).

Definition extract_genes (text : str) : list gene :=
  let d1 := fold_left (add_explicit text) (finditer_all match_explicit text) [] in
  let d2 := fold_left (add_context text) (finditer_all match_context text) d1 in
  map (fun kv => {| symbol := fst kv; hgnc_id := fst (snd kv);
                    mentions := snd (snd kv); diseases := None |}) d2.

(** ** Enrichment fetches (gene_metadata.py) *)

(** [str.split(",")] *)
Fixpoint split_on (sep : ascii) (s : str) : list str :=
  match s with
  | [] => [[]]
  | c :: r =>
      if Ascii.eqb c sep then [] :: split_on sep r
      else match split_on sep r with
           | t :: ts => (c :: t) :: ts
           | [] => [[c]]
           end
  end.

(** [resp.raise_for_status()]: 4xx and 5xx raise. *)
Definition raise_for_status (st : Z) : result unit :=
  if (400 <=? st) && (st <? 600) then Raise HTTPError else Ok tt.

(** [docs[0]] on a truthy value. *)
Definition py_index0 (v : jvalue) : result jvalue :=
  match v with
  | JArr (x :: _) => Ok x
  | JStr (c :: _) => Ok (JStr [c])
  | JArr [] | JStr [] => Raise IndexError
  | JObj _ => Raise KeyError
  | _ => Raise TypeError
  end.

Section Fetch.

Variable http_get : str -> list (str * str) -> response.
Variable json_loads : str -> option jvalue.
(** [str(v)] of a decoded value, as used by the f-strings. *)
Variable py_str : jvalue -> str.

Definition resp_json' (text : str) : result jvalue :=
  resp_json json_loads text.

Definition _hgnc_api (path : str) : result jvalue :=
  match http_get (lit "https://rest.genenames.org/" ++ path) [] with
  | NetError => Raise RequestException
  | Resp st txt => _ <- raise_for_status st ;; resp_json' txt
  end.

(** [docs = data.get("response", {}).get("docs", []);
     return docs[0] if docs else {}], outside the [try]. *)
Definition first_doc (data : jvalue) : result jvalue :=
  r <- py_get data "response" (JObj []) ;;
  docs <- py_get r "docs" (JArr []) ;;
  if py_truthy docs then py_index0 docs else Ok (JObj []).

Definition fetch_hgnc_by_symbol (sym : str) : result jvalue :=
  match _hgnc_api (lit "fetch/symbol/" ++ sym) with
  | Raise _ => Ok (JObj [])
  | Ok data => first_doc data
  end.

Definition fetch_hgnc_by_id (hgnc : str) : result jvalue :=
  match hgnc with
  | [] => Ok (JObj [])
  | _ =>
      let hid := if startswith hgnc "HGNC:" then hgnc else lit "HGNC:" ++ hgnc in
      match _hgnc_api (lit "fetch/hgnc_id/" ++ hid) with
      | Raise _ => Ok (JObj [])
      | Ok data => first_doc data
      end
  end.

Definition fetch_ncbi_aliases (entrez_id : str) : result (list str) :=
  let url := lit "https://eutils.ncbi.nlm.nih.gov/entrez/eutils/esummary.fcgi"
             ++ lit "?db=gene&id=" ++ entrez_id ++ lit "&retmode=json" in
  match (match http_get url [] with
         | NetError => Raise RequestException
         | Resp _ txt => resp_json' txt
         end) with
  | Raise _ => Ok []
  | Ok data =>
      r0 <- py_get data "result" (JObj []) ;;
      r <- py_get r0 entrez_id (JObj []) ;;
      aliases_str <- py_get r "otheraliases" (JStr []) ;;
      if negb (py_truthy aliases_str) then Ok []
      else match aliases_str with
           | JStr s0 =>
               Ok (filter (fun a => match strip a with [] => false | _ => true end)
                          (map strip (split_on ","%char s0)))
           | _ => Raise AttributeError
           end
  end.

Definition fetch_coordinates_by_ensembl (ensembl_id assembly : str) : result str :=
  let base_url :=
    if str_eqb (lower assembly) "hg19" || str_eqb (lower assembly) "grch37"
    then lit "https://grch37.rest.ensembl.org" else lit "https://rest.ensembl.org" in
  let url := base_url ++ lit "/lookup/id/" ++ ensembl_id
             ++ lit "?content-type=application/json" in
  match (match http_get url [] with
         | NetError => Raise RequestException
         | Resp st txt => if negb (st =? 200) then Ok None
                          else (v <- resp_json' txt ;; Ok (Some v))
         end) with
  | Raise _ => Ok []
  | Ok None => Ok []
  | Ok (Some data) =>
      if negb (py_truthy data) then Ok []
      else
        seq_region <- py_get data "seq_region_name" JNull ;;
        st <- py_get data "start" JNull ;;
        en <- py_get data "end" JNull ;;
        if py_truthy seq_region && py_truthy st && py_truthy en
        then Ok (lit "chr" ++ py_str seq_region ++ lit ":" ++ py_str st
                 ++ lit "-" ++ py_str en)
        else Ok []
  end.

End Fetch.

(** ** [get_article_text] (article_retriever.py) *)




Section Article.

Variable http_get : str -> list (str * str) -> response.
Variable json_loads : str -> option jvalue.
Variable py_str : jvalue -> str.
(** Lines 57-72: [ET.fromstring], the [<body>] text and whitespace
    normalisation, or the tag-stripped fallback on a [ParseError]; none of
    them raises. *)
Variable body_text_of_xml : str -> str.





End Article.

(** ** [write_csv] (writer.py) *)

(** [models.GeneInfo] *)
Record GeneInfo : Type := mk_GeneInfo {
  gi_hgnc_id : str;
  gi_gene_symbol : str;
  gi_gene_name : str;
  gi_gene_aliases : str;
  gi_coord_hg38 : str;
  gi_coord_hg19 : str;
  gi_disease : str
}.

Definition csv_headers : list str :=
  map lit [ "HGNC ID"; "Gene Symbol"; "HGNC Gene Name"; "Gene Aliases";
            "hg38 Coordinates"; "hg19 Coordinates"; "Disease" ].

Definition gene_row (gene : GeneInfo) : list str :=
  [gi_hgnc_id gene; gi_gene_symbol gene; gi_gene_name gene; gi_gene_aliases gene;
   gi_coord_hg38 gene; gi_coord_hg19 gene; gi_disease gene].

(** The rows handed to [writer.writerow], in call order. *)
Definition write_csv (rows : list GeneInfo) : list (list str) :=
  csv_headers :: map gene_row rows.

(** ** Spec-level notions for the linker *)

(** Gene [g] has a mention lying inside the character span [w]. *)
Definition has_mention_in (w : Z * Z) (g : gene) : Prop :=
  exists m, In m (mentions g) /\ inside w m = true.

(** [m] is the first mention of [g] (in its mention list) inside [w]. *)
Definition first_mention_in (w : Z * Z) (g : gene) (m : Z * Z) : Prop :=
  exists pre post, mentions g = pre ++ m :: post /\
    Forall (fun m' => inside w m' = false) pre /\ inside w m = true.

(** Twice the distance between the midpoint of [m] and the midpoint of a
    span whose offsets add up to [dc]. *)
Definition mid2_dist (dc : Z) (m : Z * Z) : Z := Z.abs (fst m + snd m - dc).

(** The distance the closest-gene loop measures for a gene. *)
Definition gdist (w : Z * Z) (dc : Z) (g : gene) : Z :=
  match find (inside w) (mentions g) with
  | Some m => mid2_dist dc m
  | None => 0
  end.

(** Twice the distance from the midpoint of the nearest mention of [g]
    inside [w] (the claim's reading), [None] without such a mention. *)
Definition nearest_dist (w : Z * Z) (dc : Z) (g : gene) : option Z :=
  fold_right (fun m acc =>
                if inside w m then
                  Some (match acc with
                        | None => mid2_dist dc m
                        | Some d => Z.min d (mid2_dist dc m)
                        end)
                else acc) None (mentions g).

(** Concrete inputs: an oracle under which every database lookup finds the
    term, and a document with one sentence [0..100]. *)
Definition net_all_found (url : str) (params : list (str * str)) : response :=
  Resp 200 "<eSearchResult><Id>1</Id></eSearchResult>".
Definition no_json (text : str) : option jvalue := None.

Definition gene_A : gene := mk_gene "AAA" None [(0, 2); (55, 59)] None.
Definition gene_B : gene := mk_gene "BBB" None [(30, 34)] None.
Definition ent_marfan : span := mk_span "DISEASE" "Marfan syndrome" 50 65 (0, 100).

(** The genes mentioned inside [w] all carry the symbol [s], and at least
    one does: "exactly one distinct gene symbol". *)
Definition unique_symbol_in (genes : list gene) (w : Z * Z) (s : str) : Prop :=
  (exists g, In g genes /\ has_mention_in w g /\ symbol g = s) /\
  (forall g, In g genes -> has_mention_in w g -> symbol g = s).

(** [j] is the position of the first gene with symbol [s]. *)
Definition first_with_symbol (genes : list gene) (s : str) (j : nat) : Prop :=
  exists g, nth_error genes j = Some g /\ symbol g = s /\
    forall j' g', (j' < j)%nat -> nth_error genes j' = Some g' -> symbol g' <> s.

(** Three sentences; the entity sits in the middle one, which mentions no
    gene. CCC is mentioned in the first sentence, EEE too in [genes_two],
    DDD in the third. *)
Definition sentences3 : list (Z * Z) := [(0, 50); (51, 100); (101, 150)].
Definition gene_C : gene := mk_gene "CCC" None [(10, 14)] None.
Definition gene_D : gene := mk_gene "DDD" None [(110, 114)] None.
Definition gene_E : gene := mk_gene "EEE" None [(20, 24)] None.
Definition ent_mid : span := mk_span "DISEASE" "Marfan syndrome" 60 75 (51, 100).

(** Generic qualifier words joined by single spaces. *)
Fixpoint join_sp (ws : list str) : str :=
  match ws with
  | [] => []
  | [w] => w
  | w :: r => w ++ lit " " ++ join_sp r
  end.

(** Generic qualifiers followed by a keyword: ["rare familial disease"],
    or the keyword alone. *)
Definition qualified_term (ws : list str) (kw : str) : str :=
  match ws with
  | [] => kw
  | _ => join_sp ws ++ lit " " ++ kw
  end.

(** The shape of the entries of [GENERIC_PARTS] the proofs rely on: they
    start and end with a lower-case letter and contain only lower-case
    letters and hyphens. *)
Definition word_shape (w : str) : bool :=
  match w with
  | [] => false
  | c :: _ =>
      is_lower c && is_lower (last w " "%char) &&
      forallb (fun d => is_lower d || Ascii.eqb d "-"%char) w
  end.

(** The three lookups of [is_valid_disease_name], each confirming the
    term [q]: MedGen and MeSH answer HTTP 200 with an [<Id>] element in the
    body; OLS answers HTTP 200 with a JSON object whose
    [response.numFound] is positive. *)
Definition medgen_confirms (http : str -> list (str * str) -> response) (q : str) : Prop :=
  exists txt, http EUTILS_ESEARCH [(lit "db", lit "medgen"); (lit "term", q)] = Resp 200 txt /\
              contains txt "<Id>" = true.

Definition mesh_confirms (http : str -> list (str * str) -> response) (q : str) : Prop :=
  exists txt, http EUTILS_ESEARCH
                [(lit "db", lit "mesh"); (lit "term", q ++ lit "[MeSH Terms]")] = Resp 200 txt /\
              contains txt "<Id>" = true.

Definition ols_confirms (http : str -> list (str * str) -> response)
    (json : str -> option jvalue) (q : str) : Prop :=
  exists txt data r n,
    http OLS_SEARCH [(lit "q", q); (lit "ontology", lit "doid")] = Resp 200 txt /\
    json txt = Some data /\
    py_get data "response" (JObj []) = Ok r /\
    py_get r "numFound" (JNum 0) = Ok n /\
    py_gt_zero n = Ok true.

(** A server that answers every request with HTTP 200 and the body [body],
    and a JSON decoder that knows the bodies [null] and [[1]]. *)
Definition net_body (body : str) (url : str) (params : list (str * str)) : response :=
  Resp 200 body.
Definition json_small (t : str) : option jvalue :=
  if str_eqb t "null" then Some JNull
  else if str_eqb t "[1]" then Some (JArr [JNum 1])
  else None.
Definition py_str_any (v : jvalue) : str := [].

(** The fields of a gene dictionary other than ["diseases"], and its
    disease set read as a list (empty while the key is absent). *)
Definition skeleton (g : gene) : str * option Z * list (Z * Z) :=
  (symbol g, hgnc_id g, mentions g).
Definition disease_list (g : gene) : list str :=
  match diseases g with Some d => d | None => [] end.

(** The pair [m] of character offsets delimits, in [text], an occurrence
    of [sym] up to letter case: [0 <= start < end <= len(text)] and
    [text[start:end].upper() == sym]. *)
Definition occurs_at (text : str) (sym : str) (m : Z * Z) : Prop :=
  0 <= fst m < snd m /\ snd m <= Z.of_nat (List.length text) /\
  upper (slice text (Z.to_nat (fst m)) (Z.to_nat (snd m))) = sym.

(** ** Spec-level notions for [extract_genes] *)

(** The upper-cased symbol and the offsets of an explicit match
    [(start(1), end(1), int(group 2))] and of a context match. *)
Definition esym (text : str) (mt : nat * nat * Z) : str :=
  let '(a, b, _) := mt in upper (slice text a b).
Definition espan (mt : nat * nat * Z) : Z * Z :=
  let '(a, b, _) := mt in (Z.of_nat a, Z.of_nat b).
Definition csym (text : str) (mt : nat * nat) : str :=
  let '(a, b) := mt in upper (slice text a b).
Definition cspan (mt : nat * nat) : Z * Z :=
  let '(a, b) := mt in (Z.of_nat a, Z.of_nat b).

(** The distinct elements of a list, in order of first occurrence. *)
Definition add_key (ks : list str) (k : str) : list str :=
  if mem_str k ks then ks else ks ++ [k].
Definition first_occurrences (l : list str) : list str := fold_left add_key l [].

(** What one match does to the entry of its own symbol. *)
Definition ex_step (e : option (option Z * list (Z * Z))) (mt : nat * nat * Z)
    : option (option Z * list (Z * Z)) :=
  let '(a, b, h) := mt in
  Some (match e with Some (Some h0, _) => Some h0 | _ => Some h end,
        match e with Some (_, ms) => ms | None => [] end ++ [(Z.of_nat a, Z.of_nat b)]).
Definition ctx_step (e : option (option Z * list (Z * Z))) (mt : nat * nat)
    : option (option Z * list (Z * Z)) :=
  let '(a, b) := mt in
  Some (match e with Some (h, _) => h | None => None end,
        match e with Some (_, ms) => ms | None => [] end ++ [(Z.of_nat a, Z.of_nat b)]).

(** ** [fetch_gene_metadata] (gene_metadata.py) *)

(** [sorted] on strings: code-point order, shorter prefix first. *)
Fixpoint str_cmp (a b : str) : comparison :=
  match a, b with
  | [], [] => Eq
  | [], _ :: _ => Lt
  | _ :: _, [] => Gt
  | x :: a', y :: b' =>
      match N.compare (N_of_ascii x) (N_of_ascii y) with
      | Eq => str_cmp a' b'
      | c => c
      end
  end.

Fixpoint str_insert (x : str) (l : list str) : list str :=
  match l with
  | [] => [x]
  | y :: r => match str_cmp x y with
              | Gt => y :: str_insert x r
              | _ => x :: y :: r
              end
  end.

Definition str_sort (l : list str) : list str := fold_right str_insert [] l.

(** [sep.join(l)] *)
Fixpoint join_with (sep : str) (l : list str) : str :=
  match l with
  | [] => []
  | [x] => x
  | x :: r => x ++ sep ++ join_with sep r
  end.

(** [str(n)] of a Python [int]: decimal digits, with a minus sign when
    negative. [fuel] bounds the number of digits. *)
Fixpoint dec_digits (fuel : nat) (n : Z) (acc : str) : str :=
  match fuel with
  | O => acc
  | S f =>
      let acc' := ascii_of_nat (48 + Z.to_nat (n mod 10)) :: acc in
      if n <? 10 then acc' else dec_digits f (n / 10) acc'
  end.

Definition z_dec (n : Z) : str :=
  if n <? 0 then "-"%char :: dec_digits (S (Z.to_nat (Z.log2 (- n)))) (- n) []
  else dec_digits (S (Z.to_nat (Z.log2 n))) n [].

(** [str(v)] of a decoded JSON value inside an f-string: a string is
    itself, other values go through [py_str]. *)
Definition fstr (py_str : jvalue -> str) (v : jvalue) : str :=
  match v with JStr s => s | _ => py_str v end.

(** [key in record], for a truthy [record]. *)
Definition py_in (k : str) (v : jvalue) : result bool :=
  match v with
  | JObj kvs => Ok (match obj_lookup kvs k with Some _ => true | None => false end)
  | JArr l => Ok (existsb (fun x => match x with JStr s => str_eqb s k | _ => false end) l)
  | JStr s => Ok (contains s k)
  | _ => Raise TypeError
  end.

(** Equality of set elements: [True == 1] and [False == 0]. *)
Definition py_num (v : jvalue) : option Z :=
  match v with JNum z => Some z | JBool b => Some (if b then 1 else 0) | _ => None end.

Definition py_eq_scalar (a b : jvalue) : bool :=
  match a, b with
  | JStr x, JStr y => str_eqb x y
  | JNull, JNull => true
  | _, _ => match py_num a, py_num b with
            | Some x, Some y => x =? y
            | _, _ => false
            end
  end.

(** [s.add(v)] on a set of hashable values, as a duplicate-free list. *)
Definition jset_add (v : jvalue) (l : list jvalue) : result (list jvalue) :=
  match v with
  | JArr _ | JObj _ => Raise TypeError
  | _ => Ok (if existsb (py_eq_scalar v) l then l else l ++ [v])
  end.

Fixpoint jset_update (vs : list jvalue) (l : list jvalue) : result (list jvalue) :=
  match vs with
  | [] => Ok l
  | v :: r => l' <- jset_add v l ;; jset_update r l'
  end.

(** One iteration of [for field in (...)]: a list value is merged, a
    non-empty string is added, anything else is skipped. *)
Definition add_field (record : jvalue) (l : list jvalue) (field : str) : result (list jvalue) :=
  v <- py_get record field JNull ;;
  match v with
  | JArr vs => jset_update vs l
  | JStr (_ :: _) => jset_add v l
  | _ => Ok l
  end.

Fixpoint add_fields (record : jvalue) (fields : list str) (l : list jvalue) : result (list jvalue) :=
  match fields with
  | [] => Ok l
  | f :: r => l' <- add_field record l f ;; add_fields record r l'
  end.

(** [{alias for alias in aliases_set if alias.strip().upper() != sym}]:
    [strip] of a non-string raises [AttributeError]. *)
Fixpoint keep_aliases (sym : str) (l : list jvalue) : result (list str) :=
  match l with
  | [] => Ok []
  | JStr a :: r =>
      rest <- keep_aliases sym r ;;
      Ok (if str_eqb (upper (strip a)) sym then rest else a :: rest)
  | _ :: _ => Raise AttributeError
  end.

(** The returned dictionary. *)
Record metadata : Type := mk_metadata {
  md_hgnc_id : jvalue;
  md_symbol : str;
  md_name : jvalue;
  md_aliases : str;
  md_coord_hg38 : str;
  md_coord_hg19 : str
}.

Section Metadata.

Variable http_get : str -> list (str * str) -> response.
Variable json_loads : str -> option jvalue.
Variable py_str : jvalue -> str.

(** [hgnc_id if hgnc_id else ""], as [fetch_hgnc_by_id] reads it. *)
Definition hgnc_arg (hgnc_id : option Z) : str :=
  match hgnc_id with
  | Some n => if n =? 0 then [] else z_dec n
  | None => []
  end.

Definition fetch_coordinates_by_symbol (sym : str) : result (str * str) :=
  c38 <- fetch_coordinates_by_ensembl http_get json_loads py_str sym "hg38" ;;
  c19 <- fetch_coordinates_by_ensembl http_get json_loads py_str sym "hg19" ;;
  Ok (c38, c19).

Definition fetch_gene_metadata (symbol : str) (hgnc_id : option Z) : result (option metadata) :=
  let sym := upper symbol in
  record0 <- fetch_hgnc_by_symbol http_get json_loads sym ;;
  record <- (if py_truthy record0 then Ok record0
             else fetch_hgnc_by_id http_get json_loads (hgnc_arg hgnc_id)) ;;
  if negb (py_truthy record) then Ok None else
  has_symbol <- py_in "symbol" record ;;
  if negb has_symbol then Ok None else
  hgnc_id_str <- py_get record "hgnc_id" (JStr []) ;;
  name <- py_get record "name" (JStr []) ;;
  aliases0 <- add_fields record (map lit ["alias_symbol"; "prev_symbol"; "alias_name"]) [] ;;
  entrez_id <- py_get record "entrez_id" JNull ;;
  aliases1 <- (if py_truthy entrez_id
               then (ncbi <- fetch_ncbi_aliases http_get json_loads (fstr py_str entrez_id) ;;
                     jset_update (map JStr ncbi) aliases0)
               else Ok aliases0) ;;
  kept <- keep_aliases sym aliases1 ;;
  let aliases := join_with "; " (str_sort kept) in
  ensembl_id <- py_get record "ensembl_gene_id" JNull ;;
  coords <- (if py_truthy ensembl_id
             then (c38 <- fetch_coordinates_by_ensembl http_get json_loads py_str
                            (fstr py_str ensembl_id) "hg38" ;;
                   c19 <- fetch_coordinates_by_ensembl http_get json_loads py_str
                            (fstr py_str ensembl_id) "hg19" ;;
                   Ok (c38, c19))
             else Ok ([], [])) ;;
  coords' <- (match coords with
              | ([], []) => fetch_coordinates_by_symbol sym
              | _ => Ok coords
              end) ;;
  Ok (Some {| md_hgnc_id := hgnc_id_str; md_symbol := sym; md_name := name;
              md_aliases := aliases; md_coord_hg38 := fst coords';
              md_coord_hg19 := snd coords' |}).

End Metadata.

(** ** [main] (main.py): from the article text to the CSV rows *)

(** A value written by [csv.writer]: [None] is the empty cell, a string
    itself, anything else [str(v)]. [GeneInfo] stores the value unchanged;
    the conversion happens when the row is written. *)
Definition cell (py_str : jvalue -> str) (v : jvalue) : str :=
  match v with JNull => [] | JStr s => s | _ => py_str v end.

Definition gene_info (py_str : jvalue -> str) (md : metadata) (ds : list str) : GeneInfo :=
  {| gi_hgnc_id := cell py_str (md_hgnc_id md);
     gi_gene_symbol := md_symbol md;
     gi_gene_name := cell py_str (md_name md);
     gi_gene_aliases := md_aliases md;
     gi_coord_hg38 := md_coord_hg38 md;
     gi_coord_hg19 := md_coord_hg19 md;
     gi_disease := join_with "; " (str_sort ds) |}.

Section Main.

Variable http_get : str -> list (str * str) -> response.
Variable json_loads : str -> option jvalue.
Variable py_str : jvalue -> str.
(** [nlp_disease(text)]: the SciSpaCy parse. *)
Variable nlp_disease : str -> doc.

(** The [for gene in genes] loop that builds [results]. *)
Fixpoint main_results (genes : list gene) : result (list GeneInfo) :=
  match genes with
  | [] => Ok []
  | g :: r =>
      match disease_list g with
      | [] => main_results r
      | ds =>
          gd <- fetch_gene_metadata http_get json_loads py_str (symbol g) (hgnc_id g) ;;
          match gd with
          | None => main_results r
          | Some md => rest <- main_results r ;; Ok (gene_info py_str md ds :: rest)
          end
      end
  end.

(** [main] after [get_article_text]: [None] when it returns without
    writing, otherwise the rows [write_csv] writes. *)
Definition main_from_text (text : str) : result (option (list (list str))) :=
  let genes := extract_genes text in
  match genes with
  | [] => Ok None
  | _ =>
      let genes' := associate_diseases http_get json_loads genes (nlp_disease text) in
      results <- main_results genes' ;;
      match results with
      | [] => Ok None
      | _ => Ok (Some (write_csv results))
      end
  end.

End Main.

(** ** [strip_tags] and [normalize_ws] (article_retriever.py, lines 60 and 71) *)

(** [re.sub(r"<[^>]+>", "", xml_content)]: at a [<], [[^>]+] runs to the
    first [>], which must exist and not come right after the [<]. Each step
    consumes a character, so [length s] steps suffice. *)
Definition not_gt (d : ascii) : bool := negb (Ascii.eqb d ">"%char).

Fixpoint strip_tags_go (fuel : nat) (s : str) : str :=
  match fuel with
  | O => s
  | S f =>
      match s with
      | [] => []
      | c :: r =>
          if Ascii.eqb c "<"%char then
            let k := count_while not_gt r in
            if (0 <? k)%nat && (k <? List.length r)%nat
            then strip_tags_go f (skipn (S k) r)
            else c :: strip_tags_go f r
          else c :: strip_tags_go f r
      end
  end.

Definition strip_tags (s : str) : str := strip_tags_go (List.length s) s.

(** [re.search(r"<[^>]+>", s)] finds a match. *)
Fixpoint has_tag (s : str) : bool :=
  match s with
  | [] => false
  | c :: r =>
      (Ascii.eqb c "<"%char &&
       ((0 <? count_while not_gt r)%nat && (count_while not_gt r <? List.length r)%nat))
      || has_tag r
  end.

(** [re.sub(r"\s+", " ", t)]: each maximal run of whitespace becomes one
    space; [prev_ws] records that the previous character was whitespace. *)
Fixpoint sub_ws (prev_ws : bool) (s : str) : str :=
  match s with
  | [] => []
  | c :: r =>
      if is_space c then
        if prev_ws then sub_ws true r else " "%char :: sub_ws true r
      else c :: sub_ws false r
  end.

Definition normalize_ws (t : str) : str := strip (sub_ws false t).

(** ** [extract_hgnc_number] and [split_values] (csv_to_db.py) *)







Definition split_values (text : option str) : list str :=
  match text with
  | None => []
  | Some t => map strip (split_on ";"%char t)
  end.

(** Whitespace in normal form, as [normalize_ws] leaves it: no two
    whitespace characters in a row, every whitespace character a space, and
    none at either end. *)
Fixpoint no_double_ws (s : str) : bool :=
  match s with
  | c :: ((d :: _) as r) => negb (is_space c && is_space d) && no_double_ws r
  | _ => true
  end.

Definition ws_normal (s : str) : Prop :=
  strip s = s /\ Forall (fun c => is_space c = true -> c = " "%char) s /\
  no_double_ws s = true.

(** Concrete inputs for the properties below: an HGNC server whose every
    answer decodes to a one-record [docs] list, a sentence that mentions
    TP53 with its HGNC id and a disease, and the parse of that sentence. *)
Definition hgnc_doc : jvalue :=
  JObj [(lit "symbol", JStr "TP53"); (lit "hgnc_id", JStr "HGNC:11998");
        (lit "name", JStr "tumor protein p53");
        (lit "alias_symbol", JArr [JStr "p53"; JStr "LFS1"; JStr " tp53 "])].
Definition json_hgnc (t : str) : option jvalue :=
  Some (JObj [(lit "response", JObj [(lit "docs", JArr [hgnc_doc])])]).
Definition json_ncbi (t : str) : option jvalue :=
  Some (JObj [(lit "result", JObj [(lit "7157",
          JObj [(lit "otheraliases", JStr " LFS1, , P53 ,BCC7")])])]).
Definition net_down (url : str) (params : list (str * str)) : response := NetError.
Definition net_404 (url : str) (params : list (str * str)) : response := Resp 404 [].
Definition text_tp53 : str :=
  "Variants in TP53 (HGNC:11998) cause Li-Fraumeni syndrome.".
Definition doc_lfs : doc :=
  {| sents := [(0, 57)];
     ents := [mk_span "DISEASE" "Li-Fraumeni syndrome" 36 56 (0, 57)] |}.
Definition nlp_lfs (t : str) : doc := doc_lfs.
Definition gene_tp53 : gene := mk_gene "TP53" (Some 11998) [(12, 16); (12, 16)] None.
Definition gene_mdm2 : gene := mk_gene "MDM2" None [] None.

(** * Properties *)

(** ** Lemmas on the linker *)

Lemma find_first_iff {A} (p : A -> bool) (l : list A) (m : A) :
  find p l = Some m <->
  exists pre post, l = pre ++ m :: post /\ Forall (fun x => p x = false) pre /\ p m = true.
Proof.
  split.
  - induction l as [|x r IH]; simpl; [discriminate|].
    destruct (p x) eqn:Hx.
    + intros [= <-]. exists [], r. auto.
    + intros Hf. destruct (IH Hf) as (pre & post & -> & Hpre & Hm).
      exists (x :: pre), post. auto.
  - intros (pre & post & -> & Hpre & Hm).
    induction Hpre as [|x pre Hx _ IH]; simpl; [now rewrite Hm|].
    now rewrite Hx.
Qed.

Lemma existsb_find {A} (p : A -> bool) (l : list A) :
  existsb p l = true <-> find p l <> None.
Proof.
  induction l as [|x r IH]; simpl; [split; congruence|].
  destruct (p x); simpl; [split; congruence|exact IH].
Qed.

Lemma has_mention_find w g :
  has_mention_in w g <-> find (inside w) (mentions g) <> None.
Proof.
  rewrite <- existsb_find, existsb_exists. reflexivity.
Qed.

Lemma in_combine_seq {A} (l : list A) : forall s j x,
  In (j, x) (combine (seq s (List.length l)) l) <->
  (s <= j)%nat /\ nth_error l (j - s) = Some x.
Proof.
  induction l as [|a r IH]; intros s j x; simpl.
  - split; [tauto|]. intros [_ H]. destruct (j - s)%nat; discriminate.
  - rewrite IH. split.
    + intros [[= <- <-]|[Hle Hn]].
      * rewrite Nat.sub_diag. auto.
      * split; [lia|]. replace (j - s)%nat with (S (j - S s)) by lia. exact Hn.
    + intros [Hle Hn]. destruct (Nat.eq_dec j s) as [->|Hne].
      * rewrite Nat.sub_diag in Hn. simpl in Hn. injection Hn as ->. auto.
      * right. split; [lia|].
        replace (j - s)%nat with (S (j - S s)) in Hn by lia. exact Hn.
Qed.

Lemma in_window w genes j g :
  In (j, g) (genes_in_window w genes) <->
  nth_error genes j = Some g /\ has_mention_in w g.
Proof.
  unfold genes_in_window. rewrite filter_In, in_combine_seq, Nat.sub_0_r.
  simpl. rewrite (existsb_exists (inside w)). unfold has_mention_in.
  split; [intros [[_ H1] H2]; auto | intros [H1 H2]; repeat split; auto; lia].
Qed.

Lemma in_combine_seq_ge {A} (l : list A) s y :
  In y (combine (seq s (List.length l)) l) -> (s <= fst y)%nat.
Proof.
  destruct y as [j x]. rewrite in_combine_seq. simpl. tauto.
Qed.

(** The positions of [genes_in_window] increase strictly. *)
Lemma filter_combine_seq_sorted {A} (p : nat * A -> bool) (l : list A) :
  forall s pre x post,
  filter p (combine (seq s (List.length l)) l) = pre ++ x :: post ->
  forall y, In y post -> (fst x < fst y)%nat.
Proof.
  induction l as [|a r IH]; intros s pre x post H y Hy; simpl in H.
  - destruct pre; discriminate.
  - destruct (p (s, a)) eqn:Hp.
    + destruct pre as [|z pre]; simpl in H; injection H as H1 H2.
      * subst x post. apply filter_In in Hy as [Hy _].
        apply in_combine_seq_ge in Hy. simpl. lia.
      * exact (IH (S s) pre x post H2 y Hy).
    + exact (IH (S s) pre x post H y Hy).
Qed.

Lemma window_sorted w genes pre x post :
  genes_in_window w genes = pre ++ x :: post ->
  forall y, In y post -> (fst x < fst y)%nat.
Proof. apply filter_combine_seq_sorted. Qed.

(** The closest-gene loop either keeps [best] (nothing beats [min]) or ends
    on an element that beats [min], strictly beats every earlier element
    and is not beaten by any later one. *)
Lemma closest_go_spec w dc : forall gs best min,
  Forall (fun ig => find (inside w) (mentions (snd ig)) <> None) gs ->
  (closest_go w dc gs best min = best /\
   Forall (fun ig => lt_inf (gdist w dc (snd ig)) min = false) gs) \/
  (exists pre i g post, gs = pre ++ (i, g) :: post /\
     closest_go w dc gs best min = Some i /\
     lt_inf (gdist w dc g) min = true /\
     Forall (fun ig => gdist w dc g < gdist w dc (snd ig)) pre /\
     Forall (fun ig => gdist w dc g <= gdist w dc (snd ig)) post).
Proof.
  induction gs as [|[i0 g0] r IH]; intros best min Hall.
  - left. simpl. auto.
  - inversion Hall as [|? ? Hf0 Hr]; subst. simpl in Hf0.
    destruct (find (inside w) (mentions g0)) as [[ms me]|] eqn:Hf; [|congruence].
    assert (Hd : gdist w dc g0 = Z.abs (ms + me - dc))
      by (unfold gdist, mid2_dist; rewrite Hf; reflexivity).
    simpl. rewrite Hf.
    destruct (lt_inf (Z.abs (ms + me - dc)) min) eqn:Hlt.
    + right.
      destruct (IH (Some i0) (Some (Z.abs (ms + me - dc))) Hr)
        as [[Hres Hnot] | (pre & i & g & post & -> & Hres & Hlt' & Hpre & Hpost)].
      * exists [], i0, g0, r. rewrite Hd. repeat split; auto.
        eapply Forall_impl; [|exact Hnot]. intros [j g'] H. simpl in *.
        apply Z.ltb_ge in H. lia.
      * exists ((i0, g0) :: pre), i, g, post. simpl in Hlt'. apply Z.ltb_lt in Hlt'.
        repeat split; auto.
        -- destruct min as [m|]; simpl in *; auto.
           apply Z.ltb_lt in Hlt. apply Z.ltb_lt. lia.
        -- constructor; auto. simpl. lia.
    + destruct (IH best min Hr)
        as [[Hres Hnot] | (pre & i & g & post & -> & Hres & Hlt' & Hpre & Hpost)].
      * left. split; auto. constructor; auto. simpl. congruence.
      * right. exists ((i0, g0) :: pre), i, g, post. repeat split; auto.
        constructor; auto. simpl. rewrite Hd.
        destruct min as [m|]; simpl in *; [|discriminate].
        apply Z.ltb_lt in Hlt'. apply Z.ltb_ge in Hlt. lia.
Qed.

Lemma process_ent_accepts http json sentences genes ent :
  process_ent http json sentences genes ent =
  if accepts http json ent then link sentences genes ent (disease_name_of ent)
  else genes.
Proof.
  unfold process_ent, accepts.
  destruct (str_eqb (label ent) "DISEASE"); simpl; [|reflexivity].
  destruct (disease_name_of ent); simpl; [reflexivity|].
  destruct (is_generic _); simpl; [reflexivity|].
  destruct (is_valid_disease_name _ _ _); reflexivity.
Qed.

(** ** C1 *)

(** C1 (as stated, refuted): the linker does not measure the nearest
    in-sentence mention of each gene. Gene AAA has a mention whose midpoint
    is 0.5 away from the disease's midpoint (doubled: 1), gene BBB's only
    mention is 25.5 away (doubled: 51), yet the disease goes to BBB, because
    AAA is measured by its first in-sentence mention (0, 2). *)
Lemma C1_nearest_mention_counterexample :
  nearest_dist (0, 100) 115 gene_A = Some 1 /\
  nearest_dist (0, 100) 115 gene_B = Some 51 /\
  process_ent net_all_found no_json [(0, 100)] [gene_A; gene_B] ent_marfan =
  [gene_A; add_disease "Marfan syndrome" gene_B].
Proof. vm_compute. repeat split; reflexivity. Qed.

Lemma first_mention_find w g m :
  first_mention_in w g m <-> find (inside w) (mentions g) = Some m.
Proof. unfold first_mention_in. rewrite find_first_iff. reflexivity. Qed.


(** C1 (amended): for an accepted disease entity whose sentence contains a
    mention of some gene, the disease is added to exactly one gene: the one
    whose FIRST mention inside the sentence (in its mention list) has its
    midpoint closest to the entity's midpoint; among equally close genes
    the earliest in [genes] wins (every earlier candidate is strictly
    farther). Distances are doubled, which does not change the order. *)
Theorem C1_link_closest_first_sentence_mention http json sentences genes ent :
  accepts http json ent = true ->
  (exists g, In g genes /\ has_mention_in (sent ent) g) ->
  exists i g m,
    nth_error genes i = Some g /\ first_mention_in (sent ent) g m /\
    (forall j g' m', nth_error genes j = Some g' ->
       first_mention_in (sent ent) g' m' ->
       mid2_dist (start_char ent + end_char ent) m <=
       mid2_dist (start_char ent + end_char ent) m') /\
    (forall j g' m', (j < i)%nat -> nth_error genes j = Some g' ->
       first_mention_in (sent ent) g' m' ->
       mid2_dist (start_char ent + end_char ent) m <
       mid2_dist (start_char ent + end_char ent) m') /\
    process_ent http json sentences genes ent =
    update_nth i (add_disease (disease_name_of ent)) genes.
Proof.
  intros Hacc [g0 [Hin0 Hm0]].
  rewrite process_ent_accepts, Hacc. unfold link. cbv zeta.
  destruct (In_nth_error genes g0 Hin0) as [j0 Hj0].
  assert (Hw0 : In (j0, g0) (genes_in_window (sent ent) genes))
    by (apply in_window; auto).
  assert (Hall : Forall (fun ig => find (inside (sent ent)) (mentions (snd ig)) <> None)
                        (genes_in_window (sent ent) genes)).
  { apply Forall_forall. intros [j g] Hjg. apply in_window in Hjg.
    apply has_mention_find. tauto. }
  (* the genes measured by the loop, with their distance *)
  assert (Hcand : forall j g' m', nth_error genes j = Some g' ->
            first_mention_in (sent ent) g' m' ->
            In (j, g') (genes_in_window (sent ent) genes) /\
            gdist (sent ent) (start_char ent + end_char ent) g' =
            mid2_dist (start_char ent + end_char ent) m').
  { intros j g' m' Hj Hf. apply first_mention_find in Hf. split.
    - apply in_window. split; auto. apply has_mention_find. congruence.
    - unfold gdist. now rewrite Hf. }
  destruct (genes_in_window (sent ent) genes) as [|x xs] eqn:Hgw; [contradiction|].
  destruct (closest_go_spec (sent ent) (start_char ent + end_char ent) (x :: xs)
              None None Hall)
    as [[_ Hnot] | (pre & i & g & post & Hsplit & Hres & _ & Hpre & Hpost)].
  - inversion Hnot; subst. simpl in *. discriminate.
  - rewrite Hres.
    assert (Hig : In (i, g) (x :: xs))
      by (rewrite Hsplit; apply in_or_app; right; left; reflexivity).
    rewrite <- Hgw in Hig. apply in_window in Hig as [Hi Hmi].
    apply has_mention_find in Hmi.
    destruct (find (inside (sent ent)) (mentions g)) as [m|] eqn:Hfm; [|congruence].
    assert (Hgd : gdist (sent ent) (start_char ent + end_char ent) g =
                  mid2_dist (start_char ent + end_char ent) m)
      by (unfold gdist; now rewrite Hfm).
    exists i, g, m. repeat split; auto.
    + now apply first_mention_find.
    + intros j g' m' Hj Hf. destruct (Hcand j g' m' Hj Hf) as [Hw Hd].
      rewrite Hsplit in Hw. rewrite <- Hd, <- Hgd.
      apply in_app_or in Hw as [Hw|[Hw|Hw]].
      * rewrite Forall_forall in Hpre. specialize (Hpre _ Hw). simpl in Hpre. lia.
      * injection Hw as <- <-. lia.
      * rewrite Forall_forall in Hpost. exact (Hpost _ Hw).
    + intros j g' m' Hlt Hj Hf. destruct (Hcand j g' m' Hj Hf) as [Hw Hd].
      rewrite Hsplit in Hw. rewrite <- Hd, <- Hgd.
      apply in_app_or in Hw as [Hw|[Hw|Hw]].
      * rewrite Forall_forall in Hpre. exact (Hpre _ Hw).
      * injection Hw as <- <-. lia.
      * pose proof (window_sorted _ _ _ _ _ (eq_trans Hgw Hsplit) _ Hw) as Hs.
        simpl in Hs. lia.
Qed.

(** ** C2 and C3 *)

Lemma str_eqb_spec a b : str_eqb a b = true <-> a = b.
Proof. unfold str_eqb. destruct (list_eq_dec ascii_dec a b); split; congruence. Qed.

Lemma in_symbols_in genes w x :
  In x (symbols_in genes w) <->
  exists g, In g genes /\ has_mention_in w g /\ symbol g = x.
Proof.
  unfold symbols_in. rewrite nodup_In, in_flat_map. unfold has_mention_in.
  split.
  - intros (g & Hg & Hx). apply in_map_iff in Hx as (m & <- & Hm).
    apply filter_In in Hm. eauto.
  - intros (g & Hg & (m & Hm & Hi) & <-). exists g. split; auto.
    apply in_map_iff. exists m. split; auto. apply filter_In. auto.
Qed.

Lemma nodup_all_eq (l : list str) s :
  NoDup l -> (forall x, In x l -> x = s) -> In s l -> l = [s].
Proof.
  intros Hnd Hall Hin. destruct l as [|a [|b r]].
  - destruct Hin.
  - f_equal. apply Hall. now left.
  - exfalso. inversion Hnd as [|? ? Hna _]; subst. apply Hna.
    rewrite (Hall a (or_introl eq_refl)), (Hall b (or_intror (or_introl eq_refl))).
    now left.
Qed.

Lemma symbols_in_singleton genes w s :
  symbols_in genes w = [s] <-> unique_symbol_in genes w s.
Proof.
  split.
  - intros Hs. split.
    + apply in_symbols_in. rewrite Hs. now left.
    + intros g Hg Hm. assert (Hin : In (symbol g) (symbols_in genes w))
        by (apply in_symbols_in; eauto).
      rewrite Hs in Hin. destruct Hin as [<-|[]]. reflexivity.
  - intros [Hex Hall]. apply nodup_all_eq.
    + apply NoDup_nodup.
    + intros x Hx. apply in_symbols_in in Hx as (g & Hg & Hm & <-). auto.
    + now apply in_symbols_in.
Qed.

Lemma find_index_spec {A} (p : A -> bool) (l : list A) j :
  find_index p l = Some j <->
  exists x, nth_error l j = Some x /\ p x = true /\
    forall j' x', (j' < j)%nat -> nth_error l j' = Some x' -> p x' = false.
Proof.
  revert j. induction l as [|a r IH]; intros j; simpl.
  - split; [discriminate|]. intros (x & Hx & _). destruct j; discriminate.
  - destruct (p a) eqn:Ha.
    + split.
      * intros [= <-]. exists a. repeat split; auto. intros j' x' Hj'. lia.
      * intros (x & Hx & Hpx & Hbefore). destruct j as [|j]; [reflexivity|].
        exfalso. rewrite (Hbefore 0%nat a) in Ha; [discriminate|lia|reflexivity].
    + split.
      * destruct (find_index p r) as [j0|] eqn:Hr; simpl; [|discriminate].
        intros [= <-]. destruct (proj1 (IH j0) eq_refl) as (x & Hx & Hpx & Hb).
        exists x. repeat split; auto. intros [|j'] x' Hj' Hn; simpl in Hn.
        -- congruence.
        -- apply (Hb j'); [lia|exact Hn].
      * intros (x & Hx & Hpx & Hb). destruct j as [|j]; simpl in Hx; [congruence|].
        assert (Hr : find_index p r = Some j).
        { apply IH. exists x. repeat split; auto. intros j' x' Hj' Hn.
          apply (Hb (S j')); [lia|exact Hn]. }
        now rewrite Hr.
Qed.

Lemma first_with_symbol_find genes s j :
  first_with_symbol genes s j <->
  find_index (fun g => str_eqb (symbol g) s) genes = Some j.
Proof.
  rewrite find_index_spec. unfold first_with_symbol. split.
  - intros (g & Hg & Hs & Hb). exists g. rewrite str_eqb_spec. repeat split; auto.
    intros j' g' Hj' Hn. destruct (str_eqb (symbol g') s) eqn:He; auto.
    apply str_eqb_spec in He. exfalso. exact (Hb j' g' Hj' Hn He).
  - intros (g & Hg & Hs & Hb). apply str_eqb_spec in Hs. exists g.
    repeat split; auto. intros j' g' Hj' Hn He. apply str_eqb_spec in He.
    rewrite (Hb j' g' Hj' Hn) in He. discriminate.
Qed.

Lemma unique_gene_in_some genes w s j :
  unique_symbol_in genes w s -> first_with_symbol genes s j ->
  unique_gene_in genes w = Some j.
Proof.
  intros Hu Hf. unfold unique_gene_in.
  rewrite (proj2 (symbols_in_singleton genes w s) Hu).
  now apply first_with_symbol_find.
Qed.

Lemma unique_gene_in_none genes w :
  ~ (exists s, unique_symbol_in genes w s) -> unique_gene_in genes w = None.
Proof.
  intros Hn. unfold unique_gene_in.
  destruct (symbols_in genes w) as [|s [|s' r]] eqn:Hs; auto.
  exfalso. apply Hn. exists s. now apply symbols_in_singleton.
Qed.

Lemma sent_index_nodup sentences k sw :
  nth_error sentences k = Some sw -> NoDup (map fst sentences) ->
  sent_index sentences (fst sw) = Some k.
Proof.
  intros Hk Hnd. unfold sent_index. apply find_index_spec.
  exists sw. repeat split; auto.
  - apply Z.eqb_refl.
  - intros j' x' Hj' Hx'. apply Z.eqb_neq. intros He.
    assert (Hj : nth_error (map fst sentences) j' = nth_error (map fst sentences) k)
      by (rewrite !nth_error_map, Hk, Hx'; simpl; now rewrite He).
    assert (Hlt : (j' < List.length (map fst sentences))%nat)
      by (apply nth_error_Some; rewrite nth_error_map, Hx'; discriminate).
    pose proof (proj1 (NoDup_nth_error (map fst sentences)) Hnd j' k Hlt Hj). lia.
Qed.

Lemma window_empty w genes :
  (forall g m, In g genes -> In m (mentions g) -> inside w m = false) ->
  genes_in_window w genes = [].
Proof.
  intros H. unfold genes_in_window.
  destruct (filter _ _) as [|[j g] r] eqn:Hf; auto. exfalso.
  assert (Hin : In (j, g) (filter (fun ig => existsb (inside w) (mentions (snd ig)))
                              (combine (seq 0 (List.length genes)) genes)))
    by (rewrite Hf; now left).
  apply filter_In in Hin as [Hc He]. apply existsb_exists in He as (m & Hm & Hi).
  apply in_combine_r in Hc. simpl in Hm. rewrite (H g m Hc Hm) in Hi. discriminate.
Qed.

Lemma link_no_sentence_gene sentences genes ent name k :
  (forall g m, In g genes -> In m (mentions g) -> inside (sent ent) m = false) ->
  nth_error sentences k = Some (sent ent) -> NoDup (map fst sentences) ->
  link sentences genes ent name =
  match adjacent_link sentences genes k with
  | Some j => update_nth j (add_disease name) genes
  | None => genes
  end.
Proof.
  intros Hno Hk Hnd. unfold link.
  rewrite (window_empty _ _ Hno), (sent_index_nodup _ _ _ Hk Hnd). reflexivity.
Qed.

(** C2: for an accepted disease entity with no gene mention inside its own
    sentence (sentence [k] of the document, sentence starts distinct), the
    preceding sentence is inspected first: when the genes mentioned inside
    it carry exactly one distinct symbol [s], the disease goes to the
    (first) gene with symbol [s]. Only when there is no preceding sentence
    or it does not yield exactly one symbol is the following sentence
    inspected, under the same rule. *)
Theorem C2_adjacent_sentence_unique_symbol http json sentences genes ent k :
  accepts http json ent = true ->
  (forall g m, In g genes -> In m (mentions g) -> inside (sent ent) m = false) ->
  nth_error sentences k = Some (sent ent) ->
  NoDup (map fst sentences) ->
  (forall pw s j, (0 < k)%nat -> nth_error sentences (k - 1) = Some pw ->
     unique_symbol_in genes pw s -> first_with_symbol genes s j ->
     process_ent http json sentences genes ent =
     update_nth j (add_disease (disease_name_of ent)) genes) /\
  ((k = 0%nat \/ forall pw, nth_error sentences (k - 1) = Some pw ->
                  ~ exists s, unique_symbol_in genes pw s) ->
   forall nw s j, nth_error sentences (S k) = Some nw ->
     unique_symbol_in genes nw s -> first_with_symbol genes s j ->
     process_ent http json sentences genes ent =
     update_nth j (add_disease (disease_name_of ent)) genes).
Proof.
  intros Hacc Hno Hk Hnd.
  rewrite process_ent_accepts, Hacc, (link_no_sentence_gene _ _ _ _ k Hno Hk Hnd).
  unfold adjacent_link. split.
  - intros pw s j Hk0 Hpw Hu Hf.
    apply Nat.ltb_lt in Hk0. rewrite Hk0, Hpw, (unique_gene_in_some _ _ _ _ Hu Hf).
    reflexivity.
  - intros Hprev nw s j Hnw Hu Hf.
    assert (Hp : (if (0 <? k)%nat then
                    match nth_error sentences (k - 1) with
                    | Some pw => unique_gene_in genes pw
                    | None => None
                    end else None) = None).
    { destruct Hprev as [->|Hprev]; [reflexivity|].
      destruct (0 <? k)%nat; [|reflexivity].
      destruct (nth_error sentences (k - 1)) as [pw|] eqn:Hpw; [|reflexivity].
      apply unique_gene_in_none. exact (Hprev pw eq_refl). }
    rewrite Hp.
    assert (Hlt : (S k < List.length sentences)%nat)
      by (apply nth_error_Some; congruence).
    replace ((k <? List.length sentences - 1)%nat) with true
      by (symmetry; apply Nat.ltb_lt; lia).
    rewrite Nat.add_1_r, Hnw, (unique_gene_in_some _ _ _ _ Hu Hf). reflexivity.
Qed.

(** C3: a disease entity with no gene mention inside its own sentence, and
    neither an adjacent sentence whose genes carry exactly one distinct
    symbol, leaves every gene unchanged: no disease set gains the name. *)
Theorem C3_no_unique_adjacent_gene_dropped http json sentences genes ent k :
  (forall g m, In g genes -> In m (mentions g) -> inside (sent ent) m = false) ->
  nth_error sentences k = Some (sent ent) ->
  NoDup (map fst sentences) ->
  (forall pw, (0 < k)%nat -> nth_error sentences (k - 1) = Some pw ->
     ~ exists s, unique_symbol_in genes pw s) ->
  (forall nw, nth_error sentences (S k) = Some nw ->
     ~ exists s, unique_symbol_in genes nw s) ->
  process_ent http json sentences genes ent = genes.
Proof.
  intros Hno Hk Hnd Hprev Hnext.
  rewrite process_ent_accepts.
  destruct (accepts http json ent); [|reflexivity].
  rewrite (link_no_sentence_gene _ _ _ _ k Hno Hk Hnd).
  unfold adjacent_link.
  destruct (0 <? k)%nat eqn:Hk0.
  - apply Nat.ltb_lt in Hk0.
    destruct (nth_error sentences (k - 1)) as [pw|] eqn:Hpw.
    + rewrite (unique_gene_in_none _ _ (Hprev pw Hk0 eq_refl)).
      destruct (k <? List.length sentences - 1)%nat; [|reflexivity].
      rewrite Nat.add_1_r.
      destruct (nth_error sentences (S k)) as [nw|] eqn:Hnw; [|reflexivity].
      rewrite (unique_gene_in_none _ _ (Hnext nw eq_refl)). reflexivity.
    + destruct (k <? List.length sentences - 1)%nat; [|reflexivity].
      rewrite Nat.add_1_r.
      destruct (nth_error sentences (S k)) as [nw|] eqn:Hnw; [|reflexivity].
      rewrite (unique_gene_in_none _ _ (Hnext nw eq_refl)). reflexivity.
  - destruct (k <? List.length sentences - 1)%nat; [|reflexivity].
    rewrite Nat.add_1_r.
    destruct (nth_error sentences (S k)) as [nw|] eqn:Hnw; [|reflexivity].
    rewrite (unique_gene_in_none _ _ (Hnext nw eq_refl)). reflexivity.
Qed.

(** ** Witnesses of C1, C2 and C3 *)

Lemma C1_witness :
  accepts net_all_found no_json ent_marfan = true /\
  (exists g, In g [gene_A; gene_B] /\ has_mention_in (sent ent_marfan) g) /\
  exists i, process_ent net_all_found no_json [(0, 100)] [gene_A; gene_B] ent_marfan =
            update_nth i (add_disease (disease_name_of ent_marfan)) [gene_A; gene_B].
Proof.
  assert (H1 : accepts net_all_found no_json ent_marfan = true)
    by (vm_compute; reflexivity).
  assert (H2 : exists g, In g [gene_A; gene_B] /\ has_mention_in (sent ent_marfan) g).
  { exists gene_B. split; [right; left; reflexivity|].
    exists (30, 34). split; [left; reflexivity|reflexivity]. }
  split; [exact H1|]. split; [exact H2|].
  destruct (C1_link_closest_first_sentence_mention net_all_found no_json [(0, 100)]
              [gene_A; gene_B] ent_marfan H1 H2)
    as (i & g & m & _ & _ & _ & _ & Hp).
  exists i. exact Hp.
Defined.

Lemma no_mention_mid :
  forall g m, In g [gene_C; gene_D; gene_E] -> In m (mentions g) ->
  inside (sent ent_mid) m = false.
Proof.
  intros g m Hg Hm.
  destruct Hg as [<-|[<-|[<-|[]]]]; destruct Hm as [<-|[]]; reflexivity.
Qed.

Lemma nodup_sentences3 : NoDup (map fst sentences3).
Proof.
  simpl. repeat constructor; simpl; intros H; repeat destruct H as [H|H]; lia.
Qed.

Lemma C2_witness :
  accepts net_all_found no_json ent_mid = true /\
  nth_error sentences3 1 = Some (sent ent_mid) /\
  process_ent net_all_found no_json sentences3 [gene_C; gene_D] ent_mid =
  update_nth 0 (add_disease (disease_name_of ent_mid)) [gene_C; gene_D].
Proof.
  assert (H1 : accepts net_all_found no_json ent_mid = true)
    by (vm_compute; reflexivity).
  assert (H2 : forall g m, In g [gene_C; gene_D] -> In m (mentions g) ->
                           inside (sent ent_mid) m = false).
  { intros g m Hg Hm. apply (no_mention_mid g m); [|exact Hm].
    destruct Hg as [<-|[<-|[]]]; simpl; auto. }
  split; [exact H1|]. split; [reflexivity|].
  apply (proj1 (C2_adjacent_sentence_unique_symbol net_all_found no_json sentences3
                  [gene_C; gene_D] ent_mid 1 H1 H2 eq_refl nodup_sentences3))
    with (pw := (0, 50)) (s := lit "CCC").
  - lia.
  - reflexivity.
  - split.
    + exists gene_C. repeat split; [left; reflexivity|].
      exists (10, 14). split; [left|]; reflexivity.
    + intros g [<-|[<-|[]]] (m & Hm & Hi); [reflexivity|].
      destruct Hm as [<-|[]]. discriminate.
  - exists gene_C. repeat split. intros j' g' Hj'. lia.
Defined.

Lemma C3_witness :
  process_ent net_all_found no_json [(0, 50); (51, 100)] [gene_C; gene_E] ent_mid =
  [gene_C; gene_E].
Proof.
  apply (C3_no_unique_adjacent_gene_dropped net_all_found no_json [(0, 50); (51, 100)]
           [gene_C; gene_E] ent_mid 1).
  - intros g m Hg Hm. apply (no_mention_mid g m); [|exact Hm].
    destruct Hg as [<-|[<-|[]]]; simpl; auto.
  - reflexivity.
  - simpl. repeat constructor; simpl; intros H; repeat destruct H as [H|H]; lia.
  - intros pw _ Hpw [s [_ Hall]]. simpl in Hpw. injection Hpw as <-.
    assert (HC : symbol gene_C = s).
    { apply Hall; [left; reflexivity|]. exists (10, 14). split; [left|]; reflexivity. }
    assert (HE : symbol gene_E = s).
    { apply Hall; [right; left; reflexivity|]. exists (20, 24). split; [left|]; reflexivity. }
    rewrite <- HE in HC. discriminate.
  - intros nw Hnw. discriminate.
Defined.

(** ** C4 *)

Ltac all_ascii c := destruct c as [[] [] [] [] [] [] [] []].

Lemma lower_char_facts c :
  is_lower c = true ->
  is_space c = false /\ char_in " -;," c = false /\ char_in " ,;:-" c = false /\
  is_sep c = false /\ lower_char c = c.
Proof. all_ascii c; vm_compute; intros H; first [discriminate H | repeat split]. Qed.

Lemma hyphen_facts c :
  (is_lower c || Ascii.eqb c "-"%char) = true -> lower_char c = c.
Proof. all_ascii c; vm_compute; intros H; first [discriminate H | reflexivity]. Qed.

Lemma stripped_not_alpha c :
  (is_space c = true -> is_alpha c = false) /\
  (char_in " ,;:-" c = true -> is_alpha c = false).
Proof. all_ascii c; vm_compute; split; intros H; first [discriminate H | reflexivity]. Qed.

Lemma lower_is_alpha c : is_lower c = true -> is_alpha c = true.
Proof. unfold is_alpha. intros ->. reflexivity. Qed.

Lemma startswith_app s k : startswith (k ++ s) k = true.
Proof.
  induction k as [|d k IH]; [destruct s; reflexivity|].
  simpl. rewrite Ascii.eqb_refl. exact IH.
Qed.

Lemma endswith_app_rev a b k :
  endswith (a ++ b) k = startswith (rev b ++ rev a) (rev k).
Proof. unfold endswith. now rewrite rev_app_distr. Qed.

Lemma endswith_app_self a k : endswith (a ++ k) k = true.
Proof. rewrite endswith_app_rev. apply startswith_app. Qed.

Lemma find_sub_startswith s k : startswith s k = true -> find_sub s k = Some 0%nat.
Proof. intros H. destruct s; simpl in *; rewrite H; reflexivity. Qed.

Lemma find_sub_prefix s k : find_sub (k ++ s) k = Some 0%nat.
Proof. apply find_sub_startswith, startswith_app. Qed.

Lemma rsplit_head_suffix x k : rsplit_head (x ++ k) k = x.
Proof.
  unfold rsplit_head. rewrite rev_app_distr, find_sub_prefix. simpl.
  rewrite <- (length_rev k), skipn_app.
  replace (List.length (rev k) - List.length (rev k))%nat with 0%nat by lia.
  rewrite skipn_all, skipn_O. simpl. apply rev_involutive.
Qed.

Lemma lstrip_keep p c r : p c = false -> lstrip_by p (c :: r) = c :: r.
Proof. simpl. intros ->. reflexivity. Qed.

Lemma rstrip_keep p x e : p e = false -> rstrip_by p (x ++ [e]) = x ++ [e].
Proof.
  intros He. unfold rstrip_by. rewrite rev_app_distr. simpl. rewrite He.
  simpl. now rewrite rev_involutive.
Qed.

Lemma rstrip_drop p x d : p d = true -> rstrip_by p (x ++ [d]) = rstrip_by p x.
Proof. intros Hd. unfold rstrip_by. rewrite rev_app_distr. simpl. now rewrite Hd. Qed.

Lemma strip_by_keep p s c r x e :
  s = c :: r -> s = x ++ [e] -> p c = false -> p e = false -> strip_by p s = s.
Proof.
  intros H1 H2 Hc He. unfold strip_by.
  assert (E : lstrip_by p s = s) by (subst s; now apply lstrip_keep).
  rewrite E, H2.
  now apply rstrip_keep.
Qed.

Lemma lstrip_app p a b :
  existsb (fun c => negb (p c)) a = true ->
  lstrip_by p (a ++ b) = lstrip_by p a ++ b.
Proof.
  induction a as [|c a IH]; simpl; [discriminate|].
  destruct (p c); simpl; auto.
Qed.

Lemma existsb_rev {A} (f : A -> bool) l : existsb f (rev l) = existsb f l.
Proof.
  apply eq_true_iff_eq. rewrite !existsb_exists.
  split; intros (x & Hx & Hf); exists x; split; auto;
    [apply in_rev | apply in_rev; rewrite rev_involutive]; auto.
Qed.

Lemma forallb_rev {A} (f : A -> bool) l : forallb f (rev l) = forallb f l.
Proof.
  apply eq_true_iff_eq. rewrite !forallb_forall.
  split; intros H x Hx; apply H;
    [rewrite <- in_rev | apply in_rev]; auto.
Qed.

Lemma isupper_rev s : isupper (rev s) = isupper s.
Proof. unfold isupper. now rewrite existsb_rev, forallb_rev. Qed.

Lemma isupper_lstrip p s :
  (forall c, p c = true -> is_alpha c = false) ->
  isupper (lstrip_by p s) = isupper s.
Proof.
  intros Hp. induction s as [|c r IH]; simpl; [reflexivity|].
  destruct (p c) eqn:Hc; [|reflexivity].
  rewrite IH. unfold isupper. simpl.
  assert (Ha : is_alpha c = false) by auto.
  assert (Hl : is_lower c = false)
    by (destruct (is_lower c) eqn:E; auto; rewrite lower_is_alpha in Ha; auto).
  now rewrite Ha, Hl.
Qed.

Lemma isupper_strip p s :
  (forall c, p c = true -> is_alpha c = false) ->
  isupper (strip_by p s) = isupper s.
Proof.
  intros Hp. unfold strip_by, rstrip_by.
  rewrite isupper_rev, isupper_lstrip, isupper_rev, isupper_lstrip; auto.
Qed.

Lemma generic_word_facts w :
  In w GENERIC_PARTS ->
  word_shape w = true /\
  (forall b rest, re_split_go b (w ++ " "%char :: rest) =
                  re_split_go false w ++ re_split_go true rest) /\
  (forall b, re_split_go b w = re_split_go false w) /\
  forallb generic_part (re_split_go false w) = true.
Proof.
  simpl. intros Hw. repeat destruct Hw as [<- | Hw];
    try contradiction;
    (split; [reflexivity | split; [reflexivity | split; [intros []; reflexivity | reflexivity]]]).
Qed.

Lemma word_shape_spec w :
  word_shape w = true ->
  (exists c r, w = c :: r /\ is_lower c = true) /\
  (exists x e, w = x ++ [e] /\ is_lower e = true) /\
  lower w = w.
Proof.
  destruct w as [|c r]; [discriminate|]. unfold word_shape.
  intros H. apply andb_prop in H as [H H3]. apply andb_prop in H as [H1 H2].
  split; [eauto|]. split.
  - exists (removelast (c :: r)), (last (c :: r) " "%char). split; [|exact H2].
    apply app_removelast_last. discriminate.
  - unfold lower. rewrite forallb_forall in H3.
    rewrite <- map_id. apply map_ext_in. intros d Hd. apply hyphen_facts, H3, Hd.
Qed.

Lemma join_sp_cons w r :
  join_sp (w :: r) = w ++ match r with [] => [] | _ => " "%char :: join_sp r end.
Proof. destruct r; simpl; [now rewrite app_nil_r | reflexivity]. Qed.

Lemma join_sp_cons2 w w' r :
  join_sp (w :: w' :: r) = w ++ " "%char :: join_sp (w' :: r).
Proof. reflexivity. Qed.

Lemma join_sp_head ws :
  ws <> [] -> Forall (fun w => In w GENERIC_PARTS) ws ->
  exists c r, join_sp ws = c :: r /\ is_lower c = true.
Proof.
  intros Hne Hws. destruct ws as [|w r]; [congruence|]. inversion Hws; subst.
  destruct (generic_word_facts w) as [Hs _]; auto.
  destruct (word_shape_spec w Hs) as [(c & r' & -> & Hc) _].
  rewrite join_sp_cons. simpl. eauto.
Qed.

Lemma join_sp_last ws :
  ws <> [] -> Forall (fun w => In w GENERIC_PARTS) ws ->
  exists x e, join_sp ws = x ++ [e] /\ is_lower e = true.
Proof.
  induction ws as [|w r IH]; intros Hne Hws; [congruence|].
  inversion Hws as [|? ? Hw Hr]; subst.
  destruct r as [|w' r'].
  - destruct (generic_word_facts w) as [Hs _]; auto.
    destruct (word_shape_spec w Hs) as [_ [(x & e & -> & He) _]].
    simpl. eauto.
  - destruct IH as (x & e & Hx & He); [discriminate | exact Hr |].
    rewrite join_sp_cons2, Hx. exists (w ++ " "%char :: x), e.
    split; [|exact He]. now rewrite <- app_assoc.
Qed.

Lemma join_sp_lower ws :
  Forall (fun w => In w GENERIC_PARTS) ws -> lower (join_sp ws) = join_sp ws.
Proof.
  induction ws as [|w r IH]; intros Hws; [reflexivity|].
  inversion Hws as [|? ? Hw Hr]; subst.
  destruct (generic_word_facts w) as [Hs _]; auto.
  destruct (word_shape_spec w Hs) as [_ [_ Hl]].
  destruct r as [|w' r']; [exact Hl|].
  rewrite join_sp_cons2. unfold lower in *. rewrite map_app, Hl. cbn [map].
  rewrite IH by exact Hr. reflexivity.
Qed.

Lemma join_sp_split ws :
  ws <> [] -> Forall (fun w => In w GENERIC_PARTS) ws ->
  forall b, forallb generic_part (re_split_go b (join_sp ws)) = true.
Proof.
  induction ws as [|w r IH]; intros Hne Hws b; [congruence|].
  inversion Hws as [|? ? Hw Hr]; subst.
  destruct (generic_word_facts w) as (_ & Hsp & Hone & Hg); auto.
  destruct r as [|w' r'].
  - simpl. rewrite Hone. exact Hg.
  - rewrite join_sp_cons2, Hsp, forallb_app, Hg. simpl.
    apply IH; [discriminate | exact Hr].
Qed.

Lemma kw_loop_skip t kw ks :
  endswith t kw = false -> generic_kw_loop t (kw :: ks) = generic_kw_loop t ks.
Proof. intros H. cbn [generic_kw_loop]. now rewrite H. Qed.

Lemma kw_loop_hit t kw ks p :
  endswith t kw = true -> strip_chars " -;," (rsplit_head t kw) = p ->
  forallb generic_part (re_split_sep p) = true ->
  generic_kw_loop t (kw :: ks) = true.
Proof.
  intros H1 H2 H3. cbn [generic_kw_loop]. rewrite H1, H2.
  destruct p; [reflexivity|]. now rewrite H3.
Qed.

Lemma KEYWORDS_cases kw :
  In kw KEYWORDS -> kw = lit "disease" \/ kw = lit "syndrome" \/ kw = lit "disorder".
Proof. simpl. intuition. Qed.

Lemma qualified_generic ws kw :
  Forall (fun w => In w GENERIC_PARTS) ws -> In kw KEYWORDS ->
  is_generic (qualified_term ws kw) = true.
Proof.
  intros Hws Hkw. apply KEYWORDS_cases in Hkw.
  destruct ws as [|w0 r1] eqn:Ews.
  { destruct Hkw as [-> | [-> | ->]]; vm_compute; reflexivity. }
  rewrite <- Ews in *.
  assert (Hne : ws <> []) by (subst; discriminate).
  assert (Hq : qualified_term ws kw = join_sp ws ++ " "%char :: kw) by (subst; reflexivity).
  rewrite Hq. clear Hq Ews w0 r1.
  destruct (join_sp_head ws Hne Hws) as (c & r0 & HJc & Hc).
  destruct (join_sp_last ws Hne Hws) as (x & e & HJe & He).
  pose proof (join_sp_lower ws Hws) as HJl.
  pose proof (join_sp_split ws Hne Hws false) as HJs.
  set (J := join_sp ws) in *.
  destruct (lower_char_facts c Hc) as (Hc1 & Hc2 & Hc3 & _).
  destruct (lower_char_facts e He) as (He1 & He2 & He3 & _).
  assert (HJ1 : strip_chars " -;," (J ++ [" "%char]) = J).
  { unfold strip_chars, strip_by.
    assert (E : lstrip_by (char_in " -;,") (J ++ [" "%char]) = J ++ [" "%char])
      by (rewrite HJc; apply lstrip_keep, Hc2).
    rewrite E, rstrip_drop by reflexivity. rewrite HJe. apply rstrip_keep, He2. }
  assert (HJ2 : strip_chars " ,;:-" J = J)
    by (eapply strip_by_keep; eauto).
  assert (HJ3 : isupper J = false)
    by (rewrite HJc; unfold isupper; cbn; rewrite Hc; apply andb_false_r).
  assert (Hsyn : forall k, endswith (J ++ " "%char :: k) k = true)
    by (intros k; replace (J ++ " "%char :: k) with ((J ++ [" "%char]) ++ k)
          by (now rewrite <- app_assoc); apply endswith_app_self).
  assert (Hrs : forall k, rsplit_head (J ++ " "%char :: k) k = J ++ [" "%char])
    by (intros k; replace (J ++ " "%char :: k) with ((J ++ [" "%char]) ++ k)
          by (now rewrite <- app_assoc); apply rsplit_head_suffix).
  assert (Hkl : exists kw' k, kw = kw' ++ [k] /\ is_lower k = true /\ lower kw = kw)
    by (destruct Hkw as [E | [E | E]]; rewrite E;
        [exists (lit "diseas"), "e"%char | exists (lit "syndrom"), "e"%char
        | exists (lit "disorde"), "r"%char]; vm_compute; auto).
  destruct Hkl as (kw' & k & Hkw' & Hk & Hlk).
  assert (Hstrip : strip (J ++ " "%char :: kw) = J ++ " "%char :: kw).
  { apply (strip_by_keep _ _ c (r0 ++ " "%char :: kw) (J ++ " "%char :: kw') k).
    - now rewrite HJc.
    - rewrite Hkw', <- app_assoc. reflexivity.
    - exact Hc1.
    - apply lower_char_facts, Hk. }
  assert (Hlow : lower (J ++ " "%char :: kw) = J ++ " "%char :: kw).
  { unfold lower in *. rewrite map_app. cbn [map]. rewrite HJl, Hlk. reflexivity. }
  unfold is_generic. rewrite Hstrip, Hlow.
  clearbody J.
  assert (Hsp : (endswith (J ++ " "%char :: kw) " syndrome" &&
    match strip_chars " ,;:-" (firstn (List.length (J ++ " "%char :: kw) -
            List.length (lit " syndrome")) (J ++ " "%char :: kw)) with
    | [] => false
    | _ :: _ => isupper (strip_chars " ,;:-" (firstn (List.length (J ++ " "%char :: kw) -
            List.length (lit " syndrome")) (J ++ " "%char :: kw)))
    end) = false).
  { destruct Hkw as [E | [E | E]]; subst kw;
      [ rewrite endswith_app_rev; reflexivity | | rewrite endswith_app_rev; reflexivity ].
    replace (List.length (J ++ " "%char :: lit "syndrome") - List.length (lit " syndrome"))%nat
      with (List.length J + 0)%nat by (rewrite length_app; simpl; lia).
    rewrite firstn_app_2, app_nil_r, HJ2, HJ3.
    destruct J; apply andb_false_r. }
  rewrite Hsp.
  destruct (mem_str (J ++ " "%char :: kw) KEYWORDS); [reflexivity|].
  replace KEYWORDS with [lit "disease"; lit "syndrome"; lit "disorder"] by reflexivity.
  destruct Hkw as [E | [E | E]]; subst kw;
    repeat (rewrite kw_loop_skip by (rewrite endswith_app_rev; reflexivity));
    (erewrite kw_loop_hit; [reflexivity | apply Hsyn | rewrite Hrs; exact HJ1 | exact HJs]).
Qed.

Lemma upper_syndrome_special p :
  isupper p = true -> is_generic (p ++ lit " syndrome") = false.
Proof.
  intros Hup.
  assert (Hex : existsb (fun c => negb (is_space c)) p = true).
  { unfold isupper in Hup. apply andb_prop in Hup as [Ha _].
    apply existsb_exists in Ha as (c & Hin & Hc). apply existsb_exists.
    exists c. split; [exact Hin|].
    destruct (is_space c) eqn:Hs; [|reflexivity].
    rewrite (proj1 (stripped_not_alpha c) Hs) in Hc. discriminate. }
  set (p1 := lstrip_by is_space p).
  assert (Horig : strip (p ++ lit " syndrome") = p1 ++ lit " syndrome").
  { unfold strip, strip_by. rewrite lstrip_app by exact Hex. fold p1.
    replace (p1 ++ lit " syndrome") with ((p1 ++ lit " syndrom") ++ ["e"%char])
      by (rewrite <- app_assoc; reflexivity).
    apply rstrip_keep. reflexivity. }
  assert (Hup1 : isupper (strip_chars " ,;:-" p1) = true).
  { unfold strip_chars, p1. rewrite isupper_strip, isupper_lstrip; auto;
      intros c; apply stripped_not_alpha. }
  unfold is_generic. rewrite Horig, endswith_app_self.
  replace (List.length (p1 ++ lit " syndrome") - List.length (lit " syndrome"))%nat
    with (List.length p1 + 0)%nat by (rewrite length_app; simpl; lia).
  rewrite firstn_app_2, app_nil_r.
  destruct (strip_chars " ,;:-" p1) eqn:Ep; [discriminate|].
  rewrite Hup1. reflexivity.
Qed.

Lemma generic_pairs_check :
  forallb (fun w1 => is_generic w1 &&
    forallb (fun w2 => forallb (fun sep =>
      Bool.eqb (is_generic (w1 ++ sep :: w2))
               (Nat.leb (List.length (re_split_sep (w1 ++ sep :: w2))) 2))
      [" "%char; "-"%char]) GENERIC_PARTS) GENERIC_PARTS = true.
Proof. vm_compute. reflexivity. Qed.

Lemma generic_pairs w1 w2 sep :
  In w1 GENERIC_PARTS -> In w2 GENERIC_PARTS -> In sep [" "%char; "-"%char] ->
  is_generic w1 = true /\
  is_generic (w1 ++ sep :: w2) =
    Nat.leb (List.length (re_split_sep (w1 ++ sep :: w2))) 2.
Proof.
  intros H1 H2 H3. pose proof generic_pairs_check as H.
  rewrite forallb_forall in H. specialize (H w1 H1).
  apply andb_prop in H as [Hg H]. split; [exact Hg|].
  rewrite forallb_forall in H. specialize (H w2 H2).
  rewrite forallb_forall in H. specialize (H sep H3).
  now apply Bool.eqb_prop.
Qed.

Lemma generic_not_linked http json sentences genes ent :
  is_generic (disease_name_of ent) = true ->
  process_ent http json sentences genes ent = genes.
Proof.
  intros Hg. rewrite process_ent_accepts. unfold accepts.
  rewrite Hg. simpl. now rewrite andb_false_r.
Qed.

(** C4 (counterexample): "single-system" and "recessive" are both generic
    qualifier words of [GENERIC_PARTS], yet the two-word term
    "single-system recessive" is not generic: the hyphen makes it split into
    three parts, and [len(parts) <= 2] fails. *)
Lemma C4_two_qualifiers_counterexample :
  In (lit "single-system") GENERIC_PARTS /\ In (lit "recessive") GENERIC_PARTS /\
  re_split_sep (lower (lit "single-system recessive")) =
    [lit "single"; lit "system"; lit "recessive"] /\
  is_generic "single-system recessive" = false.
Proof. vm_compute. intuition. Qed.

(** C4 (amended): the generic-term filter classifies "disease" and
    "autosomal recessive" as generic; a single generic qualifier word is
    generic; two generic qualifier words joined by a space or a hyphen are
    generic exactly when the joined term splits (on whitespace and hyphens)
    into at most two parts, so not when one of them is itself hyphenated;
    any sequence of generic qualifier words followed by "disease",
    "syndrome" or "disorder" (or the keyword alone) is generic; a term made
    of a prefix that is all-uppercase in the sense of Python's [isupper]
    followed by " syndrome" is not generic; and a disease span whose name is
    generic never changes the gene list. *)
Theorem C4_generic_filter :
  is_generic "disease" = true /\ is_generic "autosomal recessive" = true /\
  (forall w1 w2 sep,
     In w1 GENERIC_PARTS -> In w2 GENERIC_PARTS -> In sep [" "%char; "-"%char] ->
     is_generic w1 = true /\
     is_generic (w1 ++ sep :: w2) =
       Nat.leb (List.length (re_split_sep (w1 ++ sep :: w2))) 2) /\
  (forall ws kw,
     Forall (fun w => In w GENERIC_PARTS) ws -> In kw KEYWORDS ->
     is_generic (qualified_term ws kw) = true) /\
  (forall p, isupper p = true -> is_generic (p ++ lit " syndrome") = false) /\
  (forall http json sentences genes ent,
     is_generic (disease_name_of ent) = true ->
     process_ent http json sentences genes ent = genes).
Proof.
  split; [vm_compute; reflexivity|]. split; [vm_compute; reflexivity|].
  split; [exact generic_pairs|]. split; [exact qualified_generic|].
  split; [exact upper_syndrome_special | exact generic_not_linked].
Qed.

Lemma C4_witness :
  (In (lit "autosomal") GENERIC_PARTS /\
   is_generic (lit "autosomal" ++ " "%char :: lit "dominant") = true) /\
  is_generic (qualified_term [lit "rare"; lit "familial"] (lit "disease")) = true /\
  is_generic (lit "SHORT" ++ lit " syndrome") = false /\
  process_ent net_all_found no_json [(0, 100)] [gene_A]
    (mk_span "DISEASE" "rare disease" 0 12 (0, 100)) = [gene_A].
Proof.
  destruct C4_generic_filter as (_ & _ & Hp & Hq & Hu & Hn).
  split; [split; [simpl; tauto|] |].
  { rewrite (proj2 (Hp (lit "autosomal") (lit "dominant") " "%char
                       ltac:(simpl; tauto) ltac:(simpl; tauto) ltac:(simpl; tauto))).
    vm_compute. reflexivity. }
  split; [apply Hq; [repeat constructor; simpl; tauto | simpl; tauto]|].
  split; [apply Hu; vm_compute; reflexivity|].
  apply Hn. vm_compute. reflexivity.
Defined.

(** ** C5 *)

Lemma medgen_check_iff http q :
  medgen_check http q = true <-> medgen_confirms http q.
Proof.
  unfold medgen_check, medgen_confirms.
  destruct (http _ _) as [|st txt]; split; try discriminate.
  - intros (? & H & _). discriminate.
  - intros H. apply andb_prop in H as [H1 H2]. apply Z.eqb_eq in H1. subst.
    eauto.
  - intros (t & H & H2). injection H as -> ->. now rewrite H2.
Qed.

Lemma mesh_check_iff http q :
  mesh_check http q = true <-> mesh_confirms http q.
Proof.
  unfold mesh_check, mesh_confirms.
  destruct (http _ _) as [|st txt]; split; try discriminate.
  - intros (? & H & _). discriminate.
  - intros H. apply andb_prop in H as [H1 H2]. apply Z.eqb_eq in H1. subst.
    eauto.
  - intros (t & H & H2). injection H as -> ->. now rewrite H2.
Qed.

Lemma ols_check_iff http json q :
  ols_check http json q = true <-> ols_confirms http json q.
Proof.
  unfold ols_check, ols_confirms, resp_json.
  destruct (http _ _) as [|st txt]; split; try discriminate.
  - intros (? & ? & ? & ? & H & _). discriminate.
  - destruct (Z.eqb_spec st 200) as [->|]; [|discriminate].
    destruct (json txt) as [data|] eqn:Ej; [|discriminate]. cbn [bind].
    destruct (py_get data _ _) as [r|] eqn:Er; [|discriminate]. cbn [bind].
    destruct (py_get r _ _) as [n|] eqn:En; [|discriminate]. cbn [bind].
    destruct (py_gt_zero n) as [[]|] eqn:E; try discriminate.
    intros _. exists txt, data, r, n. auto.
  - intros (t & data & r & n & H & Hj & Hr & Hn & Hg).
    injection H as -> ->. rewrite Z.eqb_refl, Hj. cbn [bind]. rewrite Hr.
    cbn [bind]. rewrite Hn. cbn [bind]. now rewrite Hg.
Qed.

Lemma valid_iff http json q :
  is_valid_disease_name http json q = true <->
  strip q <> [] /\
  (medgen_confirms http (strip q) \/ mesh_confirms http (strip q) \/
   ols_confirms http json (strip q)).
Proof.
  unfold is_valid_disease_name.
  destruct (strip q) as [|c r] eqn:Hq.
  - split; [discriminate | intros [H _]; congruence].
  - rewrite <- Hq, !orb_true_iff, medgen_check_iff, mesh_check_iff, ols_check_iff.
    split; [intros H; split; [congruence | tauto] | tauto].
Qed.

(** C5: a span is linked only when its label is DISEASE, its stripped name
    is non-empty and not generic, and the validity check holds; the validity
    check holds exactly when the query (the stripped term) is non-empty and
    at least one of the MedGen, MeSH and OLS (doid) lookups confirms it, a
    failing or raising lookup counting as no confirmation; otherwise the
    span leaves the gene list unchanged. *)
Theorem C5_disease_span_filter http json sentences genes ent :
  (forall q, is_valid_disease_name http json q = true <->
     strip q <> [] /\
     (medgen_confirms http (strip q) \/ mesh_confirms http (strip q) \/
      ols_confirms http json (strip q))) /\
  (label ent = lit "DISEASE" /\ disease_name_of ent <> [] /\
   is_generic (disease_name_of ent) = false /\
   is_valid_disease_name http json (disease_name_of ent) = true ->
   process_ent http json sentences genes ent =
   link sentences genes ent (disease_name_of ent)) /\
  (~ (label ent = lit "DISEASE" /\ disease_name_of ent <> [] /\
      is_generic (disease_name_of ent) = false /\
      is_valid_disease_name http json (disease_name_of ent) = true) ->
   process_ent http json sentences genes ent = genes).
Proof.
  split; [intros q; apply valid_iff|].
  rewrite process_ent_accepts. unfold accepts.
  split.
  - intros (Hl & Hn & Hg & Hv). apply str_eqb_spec in Hl.
    rewrite Hl, Hg, Hv. destruct (disease_name_of ent); [congruence|]. reflexivity.
  - intros Hnot.
    destruct (str_eqb (label ent) "DISEASE") eqn:Hl; [|reflexivity].
    destruct (disease_name_of ent) as [|c r] eqn:Hn; [reflexivity|].
    destruct (is_generic (c :: r)) eqn:Hg; [reflexivity|].
    destruct (is_valid_disease_name http json (c :: r)) eqn:Hv; [|reflexivity].
    exfalso. apply Hnot. apply str_eqb_spec in Hl. repeat split; auto; discriminate.
Qed.

Lemma C5_witness :
  process_ent net_all_found no_json [(0, 100)] [gene_A; gene_B] ent_marfan =
  link [(0, 100)] [gene_A; gene_B] ent_marfan (disease_name_of ent_marfan) /\
  process_ent net_all_found no_json [(0, 100)] [gene_A; gene_B]
    (mk_span "CHEMICAL" "Marfan syndrome" 50 65 (0, 100)) = [gene_A; gene_B] /\
  is_valid_disease_name net_all_found no_json "Marfan syndrome" = true.
Proof.
  destruct (C5_disease_span_filter net_all_found no_json [(0, 100)] [gene_A; gene_B]
              ent_marfan) as (Hv & Hyes & _).
  destruct (C5_disease_span_filter net_all_found no_json [(0, 100)] [gene_A; gene_B]
              (mk_span "CHEMICAL" "Marfan syndrome" 50 65 (0, 100))) as (_ & _ & Hno).
  split; [apply Hyes; repeat split; vm_compute; first [reflexivity | discriminate]|].
  split; [apply Hno; intros (Hl & _); vm_compute in Hl; discriminate|].
  apply Hv. split; [vm_compute; discriminate|].
  left. exists (lit "<eSearchResult><Id>1</Id></eSearchResult>"). split; reflexivity.
Defined.

(** ** C7 *)

(** C7 (code bug): the enrichment fetches only guard the request and the
    JSON decoding; the lookups on the decoded value are outside the [try].
    A well-formed JSON body that is not an object makes them raise: with
    the body [null], [fetch_ncbi_aliases], [fetch_hgnc_by_symbol] and
    [fetch_hgnc_by_id] raise [AttributeError] ([None.get]), and with the
    body [[1]], [fetch_coordinates_by_ensembl] raises [AttributeError]
    ([list.get]); only the last one guards the [null] body
    ([if not data: return ""]). *)
Theorem C7_fetch_raises_on_non_object_json :
  fetch_ncbi_aliases (net_body "null") json_small "7157" = Raise AttributeError /\
  fetch_hgnc_by_symbol (net_body "null") json_small "TP53" = Raise AttributeError /\
  fetch_hgnc_by_id (net_body "null") json_small "HGNC:11998" = Raise AttributeError /\
  fetch_coordinates_by_ensembl (net_body "[1]") json_small py_str_any
    "ENSG00000141510" "hg38" = Raise AttributeError /\
  fetch_coordinates_by_ensembl (net_body "null") json_small py_str_any
    "ENSG00000141510" "hg38" = Ok [].
Proof. vm_compute. repeat split. Qed.

(** The failures the [try] blocks do cover: a network error makes every
    fetch return its empty value. *)
Lemma fetch_network_error json py_str sym hid eid ens asm :
  fetch_hgnc_by_symbol (fun _ _ => NetError) json sym = Ok (JObj []) /\
  fetch_hgnc_by_id (fun _ _ => NetError) json hid = Ok (JObj []) /\
  fetch_ncbi_aliases (fun _ _ => NetError) json eid = Ok [] /\
  fetch_coordinates_by_ensembl (fun _ _ => NetError) json py_str ens asm = Ok [].
Proof.
  unfold fetch_hgnc_by_symbol, fetch_hgnc_by_id, fetch_ncbi_aliases,
    fetch_coordinates_by_ensembl, _hgnc_api.
  repeat split. destruct hid; reflexivity.
Qed.

(** ** C8 *)


















(** ** C9 *)

(** C9: the rows written by [write_csv] are the seven headers HGNC ID,
    Gene Symbol, HGNC Gene Name, Gene Aliases, hg38 Coordinates,
    hg19 Coordinates, Disease, then one row per record, in input order,
    holding the record's seven fields in that column order. *)
Theorem C9_write_csv_rows rows :
  nth_error (write_csv rows) 0 =
    Some (map lit [ "HGNC ID"; "Gene Symbol"; "HGNC Gene Name"; "Gene Aliases";
                    "hg38 Coordinates"; "hg19 Coordinates"; "Disease" ]) /\
  List.length (write_csv rows) = S (List.length rows) /\
  (forall i g, nth_error rows i = Some g ->
     nth_error (write_csv rows) (S i) =
       Some [gi_hgnc_id g; gi_gene_symbol g; gi_gene_name g; gi_gene_aliases g;
             gi_coord_hg38 g; gi_coord_hg19 g; gi_disease g]).
Proof.
  unfold write_csv. split; [reflexivity|]. split.
  - simpl. now rewrite length_map.
  - intros i g H. simpl. rewrite nth_error_map, H. reflexivity.
Qed.

Lemma C9_witness :
  nth_error (write_csv [mk_GeneInfo "HGNC:11998" "TP53" "tumor protein p53" "LFS1"
                          "chr17:7661779-7687538" "chr17:7565097-7590856" "Li-Fraumeni syndrome"]) 1 =
  Some (map lit ["HGNC:11998"; "TP53"; "tumor protein p53"; "LFS1";
                 "chr17:7661779-7687538"; "chr17:7565097-7590856"; "Li-Fraumeni syndrome"]).
Proof.
  destruct (C9_write_csv_rows [mk_GeneInfo "HGNC:11998" "TP53" "tumor protein p53" "LFS1"
      "chr17:7661779-7687538" "chr17:7565097-7590856" "Li-Fraumeni syndrome"])
    as (_ & _ & H).
  rewrite (H 0%nat _ eq_refl). reflexivity.
Defined.

(** ** C10 *)

Definition grows (g g' : gene) : Prop :=
  skeleton g = skeleton g' /\ incl (disease_list g) (disease_list g').

Lemma grows_refl g : grows g g.
Proof. split; [reflexivity | apply incl_refl]. Qed.

Lemma grows_trans g1 g2 g3 : grows g1 g2 -> grows g2 g3 -> grows g1 g3.
Proof.
  intros [H1 I1] [H2 I2]. split; [congruence | eapply incl_tran; eauto].
Qed.

Lemma grows_add_disease name g : grows g (add_disease name g).
Proof.
  split; [reflexivity|]. unfold disease_list, add_disease, set_add. simpl.
  destruct (mem_str _ _); [apply incl_refl | apply incl_appl, incl_refl].
Qed.

Lemma Forall2_grows_refl l : Forall2 grows l l.
Proof. induction l; constructor; auto using grows_refl. Qed.

Lemma Forall2_grows_trans l1 l2 l3 :
  Forall2 grows l1 l2 -> Forall2 grows l2 l3 -> Forall2 grows l1 l3.
Proof.
  intros H. revert l3. induction H as [|a b l1 l2 Hab H IH]; intros l3 H'; inversion H'; subst;
    constructor; eauto using grows_trans.
Qed.

Lemma Forall2_grows_update i name l :
  Forall2 grows l (update_nth i (add_disease name) l).
Proof.
  revert i. induction l as [|g l IH]; intros [|i]; simpl; constructor;
    auto using grows_refl, grows_add_disease, Forall2_grows_refl.
Qed.

Lemma link_grows sentences genes ent name :
  Forall2 grows genes (link sentences genes ent name).
Proof.
  unfold link.
  destruct (genes_in_window (sent ent) genes) as [|x r].
  - destruct (sent_index _ _) as [k|]; [|apply Forall2_grows_refl].
    destruct (adjacent_link _ _ _) as [j|];
      [apply Forall2_grows_update | apply Forall2_grows_refl].
  - destruct (closest_go _ _ _ _ _) as [i|];
      [apply Forall2_grows_update | apply Forall2_grows_refl].
Qed.

Lemma process_ent_grows http json sentences genes ent :
  Forall2 grows genes (process_ent http json sentences genes ent).
Proof.
  rewrite process_ent_accepts. destruct (accepts _ _ _);
    [apply link_grows | apply Forall2_grows_refl].
Qed.

Lemma associate_grows http json d genes :
  Forall2 grows genes (associate_diseases http json genes d).
Proof.
  unfold associate_diseases. generalize (sents d) as sentences. intros sentences.
  assert (H : forall es acc, Forall2 grows genes acc ->
            Forall2 grows genes (fold_left (process_ent http json sentences) es acc)).
  { induction es as [|e es IH]; intros acc Hacc; simpl; [exact Hacc|].
    apply IH. eapply Forall2_grows_trans; [exact Hacc | apply process_ent_grows]. }
  apply H, Forall2_grows_refl.
Qed.

Lemma Forall2_grows_map l l' :
  Forall2 grows l l' -> map skeleton l = map skeleton l'.
Proof. induction 1 as [|a b l l' [Hs _] _ IH]; simpl; congruence. Qed.

Lemma Forall2_grows_nth l l' :
  Forall2 grows l l' ->
  forall i g g', nth_error l i = Some g -> nth_error l' i = Some g' -> grows g g'.
Proof.
  induction 1 as [|a b l l' Hab _ IH]; intros [|i] g g' H1 H2; simpl in *;
    try discriminate.
  - congruence.
  - eauto.
Qed.

(** C10: [associate_diseases] keeps the list of genes, in order, with each
    gene's symbol, HGNC id and mentions unchanged; at each position the
    disease set after the call contains every disease name it held
    before (a missing ["diseases"] key counting as the empty set). *)
Theorem C10_associate_diseases_frame http json genes d :
  map skeleton (associate_diseases http json genes d) = map skeleton genes /\
  List.length (associate_diseases http json genes d) = List.length genes /\
  (forall i g g', nth_error genes i = Some g ->
     nth_error (associate_diseases http json genes d) i = Some g' ->
     symbol g' = symbol g /\ hgnc_id g' = hgnc_id g /\ mentions g' = mentions g /\
     incl (disease_list g) (disease_list g')).
Proof.
  pose proof (associate_grows http json d genes) as H.
  split; [symmetry; now apply Forall2_grows_map|].
  split; [symmetry; eapply Forall2_length; eauto|].
  intros i g g' H1 H2.
  destruct (Forall2_grows_nth _ _ H i g g' H1 H2) as [Hs Hi].
  unfold skeleton in Hs. injection Hs as E1 E2 E3. auto.
Qed.

Lemma C10_witness :
  let out := associate_diseases net_all_found no_json [gene_A; gene_B]
               {| sents := [(0, 100)]; ents := [ent_marfan] |} in
  symbol (nth 1 out gene_A) = symbol gene_B /\
  incl (disease_list gene_B) (disease_list (nth 1 out gene_A)).
Proof.
  intros out.
  destruct (C10_associate_diseases_frame net_all_found no_json [gene_A; gene_B]
              {| sents := [(0, 100)]; ents := [ent_marfan] |}) as (_ & _ & H).
  destruct (H 1%nat gene_B (nth 1 out gene_A) eq_refl) as (Hs & _ & _ & Hd);
    [vm_compute; reflexivity|].
  split; [exact Hs | exact Hd].
Defined.

(** ** C6 *)

Lemma count_while_le f l : (count_while f l <= List.length l)%nat.
Proof. induction l as [|c l IH]; simpl; [lia|]. destruct (f c); simpl; lia. Qed.

Lemma run_bounds f s p :
  (count_while f (skipn p s) <= List.length s - p)%nat.
Proof. rewrite <- length_skipn. apply count_while_le. Qed.

Lemma longest_wb_bounds s g n l :
  longest_wb s g n = Some l -> (1 <= l <= n)%nat.
Proof.
  induction n as [|n IH]; simpl; [discriminate|].
  destruct (wb s (g + S n)); [intros [= <-]; lia | intros H; specialize (IH H); lia].
Qed.

Lemma gene_group_at_bounds s g a b e :
  gene_group_at s g = Some ((a, b), e) -> (a < b <= List.length s)%nat.
Proof.
  unfold gene_group_at.
  destruct (longest_wb _ _ _) as [l|] eqn:E; [|discriminate].
  intros [= <- <- _]. apply longest_wb_bounds in E.
  pose proof (run_bounds gene_char_ci s g). lia.
Qed.

Lemma first_some_in {A} (l : list (option A)) x :
  first_some l = Some x -> In (Some x) l.
Proof.
  induction l as [|[y|] l IH]; simpl; [discriminate | intros [= ->]; auto | auto].
Qed.

Lemma article_then_gene_bounds s q w a b e :
  article_then_gene s q w = Some ((a, b), e) -> (a < b <= List.length s)%nat.
Proof.
  unfold article_then_gene. destruct (ci_at s q w); [|discriminate].
  destruct (Nat.eqb _ 0); [discriminate|]. apply gene_group_at_bounds.
Qed.

Lemma context_rest_bounds s q a b e :
  context_rest s q = Some ((a, b), e) -> (a < b <= List.length s)%nat.
Proof.
  unfold context_rest.
  destruct (Nat.eqb (ws_run s q) 0); [discriminate|].
  destruct (negb _); [discriminate|].
  destruct (Nat.eqb _ 0); [discriminate|].
  intros H. apply first_some_in in H. simpl in H.
  destruct H as [H | [H | [H | []]]];
    [eapply article_then_gene_bounds | eapply article_then_gene_bounds
    | eapply gene_group_at_bounds]; exact H.
Qed.

Lemma match_context_bounds s p a b e :
  match_context s p = Some ((a, b), e) -> (a < b <= List.length s)%nat.
Proof.
  unfold match_context. intros H. apply first_some_in, in_map_iff in H.
  destruct H as (w & Hw & _). destruct (ci_at s p w); [|discriminate].
  eapply context_rest_bounds. exact Hw.
Qed.

Ltac destruct_in H :=
  match type of H with
  | context [match ?x with _ => _ end] => destruct x eqn:?
  end.

Lemma match_explicit_bounds s p a b h e :
  match_explicit s p = Some ((a, b, h), e) -> (a < b <= List.length s)%nat.
Proof.
  unfold match_explicit. cbv zeta. intros H.
  repeat (destruct_in H; try discriminate H).
  injection H as <- <- _ _.
  match goal with E : Nat.eqb (p + _) p = false |- _ => apply Nat.eqb_neq in E end.
  pose proof (run_bounds gene_char s p). lia.
Qed.

Lemma finditer_in {A} (m : str -> nat -> option (A * nat)) s fuel p x :
  In x (finditer m s fuel p) -> exists p' e, m s p' = Some (x, e).
Proof.
  revert p. induction fuel as [|f IH]; intros p; simpl; [contradiction|].
  destruct (Nat.ltb _ _); [contradiction|].
  destruct (m s p) as [[a e]|] eqn:E.
  - intros [<- | H]; eauto.
  - apply IH.
Qed.

Definition dict_inv (text : str) (d : gene_dict) : Prop :=
  NoDup (map fst d) /\
  forall k v, In (k, v) d -> Forall (occurs_at text k) (snd v).

Lemma dict_find_in d k v : dict_find d k = Some v -> In (k, v) d.
Proof.
  induction d as [|[k' v'] d IH]; simpl; [discriminate|].
  destruct (str_eqb k k') eqn:E.
  - apply str_eqb_spec in E. subst. intros [= ->]. auto.
  - auto.
Qed.

Lemma dict_set_in d k v k' v' :
  In (k', v') (dict_set d k v) -> (k' = k /\ v' = v) \/ In (k', v') d.
Proof.
  induction d as [|[k0 v0] d IH]; simpl.
  - intros [[= <- <-] | []]. auto.
  - destruct (str_eqb k k0) eqn:E.
    + apply str_eqb_spec in E. subst. intros [[= <- <-] | H]; auto.
    + intros [H | H]; [auto|]. destruct (IH H); auto.
Qed.

Lemma dict_set_keys d k v x :
  In x (map fst (dict_set d k v)) -> x = k \/ In x (map fst d).
Proof.
  intros H. apply in_map_iff in H as ([x' v'] & <- & H).
  destruct (dict_set_in _ _ _ _ _ H) as [[-> _] | H']; [auto|].
  right. apply in_map_iff. exists (x', v'). auto.
Qed.

Lemma dict_set_nodup d k v : NoDup (map fst d) -> NoDup (map fst (dict_set d k v)).
Proof.
  induction d as [|[k0 v0] d IH]; simpl; intros Hnd.
  - repeat constructor. auto.
  - inversion Hnd as [|? ? Hn Hnd']; subst.
    destruct (str_eqb k k0) eqn:E; simpl; [exact Hnd|].
    constructor; [|auto].
    intros Hin. apply dict_set_keys in Hin as [-> | Hin]; [|contradiction].
    rewrite (proj2 (str_eqb_spec k k) eq_refl) in E. discriminate.
Qed.

Lemma occurs_of_bounds text a b :
  (a < b <= List.length text)%nat ->
  occurs_at text (upper (slice text a b)) (Z.of_nat a, Z.of_nat b).
Proof.
  intros H. unfold occurs_at. simpl. rewrite !Nat2Z.id.
  split; [lia|]. split; [lia | reflexivity].
Qed.

(** Adding the mention [m] of key [k] to the entry found for [k]. *)
Lemma dict_inv_add text d k v m :
  dict_inv text d -> occurs_at text k m ->
  (forall v0, dict_find d k = Some v0 -> snd v = snd v0) ->
  (dict_find d k = None -> snd v = []) ->
  dict_inv text (dict_set d k (fst v, snd v ++ [m])).
Proof.
  intros [Hnd Hall] Hm Hsome Hnone. split; [now apply dict_set_nodup|].
  intros k' v' Hin. apply dict_set_in in Hin as [[-> ->] | Hin]; [|eauto].
  simpl. apply Forall_app. split; [|auto].
  destruct (dict_find d k) as [v0|] eqn:E.
  - rewrite (Hsome v0 eq_refl). apply (Hall k v0), dict_find_in, E.
  - rewrite Hnone by reflexivity. constructor.
Qed.

Lemma add_explicit_inv text d mt p e :
  match_explicit text p = Some (mt, e) ->
  dict_inv text d -> dict_inv text (add_explicit text d mt).
Proof.
  destruct mt as [[a b] h]. simpl. intros Hm Hinv.
  apply match_explicit_bounds in Hm.
  unfold add_explicit.
  set (sym := upper (slice text a b)).
  destruct (dict_find d sym) as [[[h0|] ms]|] eqn:E;
    (apply dict_inv_add; [exact Hinv | apply occurs_of_bounds, Hm | |]);
    intros; rewrite E in *; try discriminate;
    try match goal with H : Some _ = Some _ |- _ => injection H as <- end;
    reflexivity.
Qed.

Lemma add_context_inv text d mt p e :
  match_context text p = Some (mt, e) ->
  dict_inv text d -> dict_inv text (add_context text d mt).
Proof.
  destruct mt as [a b]. simpl. intros Hm Hinv.
  apply match_context_bounds in Hm.
  unfold add_context.
  set (sym := upper (slice text a b)).
  destruct (dict_find d sym) as [[h0 ms]|] eqn:E;
    (apply dict_inv_add; [exact Hinv | apply occurs_of_bounds, Hm | |]);
    intros; rewrite E in *; try discriminate;
    try match goal with H : Some _ = Some _ |- _ => injection H as <- end;
    reflexivity.
Qed.

Lemma fold_left_inv {B} (Inv : gene_dict -> Prop) (f : gene_dict -> B -> gene_dict) l d :
  (forall x d, In x l -> Inv d -> Inv (f d x)) -> Inv d -> Inv (fold_left f l d).
Proof.
  revert d. induction l as [|x l IH]; intros d Hf Hd; simpl; [exact Hd|].
  apply IH; [intros; apply Hf; simpl; auto | apply Hf; simpl; auto].
Qed.

Lemma extract_dict_inv text :
  dict_inv text
    (fold_left (add_context text) (finditer_all match_context text)
       (fold_left (add_explicit text) (finditer_all match_explicit text) [])).
Proof.
  apply fold_left_inv.
  - intros x d Hx Hd. apply finditer_in in Hx as (p & e & Hm).
    eapply add_context_inv; eauto.
  - apply fold_left_inv.
    + intros x d Hx Hd. apply finditer_in in Hx as (p & e & Hm).
      eapply add_explicit_inv; eauto.
    + split; [constructor | intros k v []].
Qed.

(** C6: the records returned by [extract_genes] have pairwise distinct
    (upper-cased) symbols; each record has exactly the fields symbol,
    HGNC id (an optional integer) and mentions, with no disease set yet;
    and every mention [(start, end)] of a record satisfies
    [0 <= start < end <= len(text)] and [text[start:end].upper()] is the
    record's symbol: an occurrence of the symbol in the text, up to letter
    case (the context pattern matches case-insensitively). *)
Theorem C6_extract_genes_records text :
  NoDup (map symbol (extract_genes text)) /\
  forall g, In g (extract_genes text) ->
    diseases g = None /\ Forall (occurs_at text (symbol g)) (mentions g).
Proof.
  destruct (extract_dict_inv text) as [Hnd Hall].
  unfold extract_genes. split.
  - rewrite map_map. simpl. exact Hnd.
  - intros g Hg. apply in_map_iff in Hg as ([k v] & <- & Hin). simpl.
    split; [reflexivity|]. exact (Hall k v Hin).
Qed.

Lemma C6_witness :
  let gs := extract_genes "Variants in tp53 and TP53 (HGNC:11998) were seen." in
  map symbol gs = [lit "TP53"] /\
  Forall (occurs_at "Variants in tp53 and TP53 (HGNC:11998) were seen." (lit "TP53"))
    (flat_map mentions gs).
Proof.
  intros gs.
  destruct (C6_extract_genes_records "Variants in tp53 and TP53 (HGNC:11998) were seen.")
    as [_ Hall].
  split; [vm_compute; reflexivity|].
  apply Forall_flat_map, Forall_forall. intros g Hg.
  destruct (Hall g Hg) as [_ Hm].
  replace (lit "TP53") with (symbol g); [exact Hm|].
  revert Hg. vm_compute. intros [<- | []]. reflexivity.
Defined.

(** * Further properties *)

(** ** The records of [extract_genes] *)

Lemma str_eqb_refl k : str_eqb k k = true.
Proof. now apply str_eqb_spec. Qed.

Lemma str_eqb_sym a b : str_eqb a b = str_eqb b a.
Proof.
  destruct (str_eqb a b) eqn:E, (str_eqb b a) eqn:F; auto;
    [apply str_eqb_spec in E; subst; now rewrite str_eqb_refl in F
    | apply str_eqb_spec in F; subst; now rewrite str_eqb_refl in E].
Qed.

Lemma dict_find_set_same d k v : dict_find (dict_set d k v) k = Some v.
Proof.
  induction d as [|[k0 v0] d IH]; simpl; [now rewrite str_eqb_refl|].
  destruct (str_eqb k k0) eqn:E; simpl; rewrite E; auto.
Qed.

Lemma dict_find_set_other d k v k' :
  str_eqb k' k = false -> dict_find (dict_set d k v) k' = dict_find d k'.
Proof.
  intros Hne. induction d as [|[k0 v0] d IH]; simpl; [now rewrite Hne|].
  destruct (str_eqb k k0) eqn:E; simpl.
  - apply str_eqb_spec in E. subst. now rewrite Hne.
  - now rewrite IH.
Qed.

Lemma dict_set_fst d k v :
  map fst (dict_set d k v) = add_key (map fst d) k.
Proof.
  unfold add_key, mem_str.
  induction d as [|[k0 v0] d IH]; simpl; [reflexivity|].
  destruct (str_eqb k k0) eqn:E; simpl; [reflexivity|].
  rewrite IH. destruct (existsb _ _); reflexivity.
Qed.

Lemma dict_find_nodup d k v :
  NoDup (map fst d) -> In (k, v) d -> dict_find d k = Some v.
Proof.
  induction d as [|[k0 v0] d IH]; simpl; [contradiction|].
  intros Hnd Hin. inversion Hnd as [|? ? Hn Hnd']; subst.
  destruct Hin as [[= <- <-] | Hin]; [now rewrite str_eqb_refl|].
  destruct (str_eqb k k0) eqn:E.
  - apply str_eqb_spec in E. subst. exfalso. apply Hn.
    apply in_map_iff. exists (k0, v). auto.
  - auto.
Qed.

Lemma add_explicit_find text d mt k :
  dict_find (add_explicit text d mt) k =
  if str_eqb k (esym text mt) then ex_step (dict_find d k) mt else dict_find d k.
Proof.
  destruct mt as [[a b] h]. unfold add_explicit. simpl.
  destruct (str_eqb k (upper (slice text a b))) eqn:E.
  - apply str_eqb_spec in E. subst. rewrite dict_find_set_same.
    destruct (dict_find d _) as [[[h0|] ms]|]; reflexivity.
  - now apply dict_find_set_other.
Qed.

Lemma add_context_find text d mt k :
  dict_find (add_context text d mt) k =
  if str_eqb k (csym text mt) then ctx_step (dict_find d k) mt else dict_find d k.
Proof.
  destruct mt as [a b]. unfold add_context. simpl.
  destruct (str_eqb k (upper (slice text a b))) eqn:E.
  - apply str_eqb_spec in E. subst. rewrite dict_find_set_same.
    destruct (dict_find d _) as [[h0 ms]|]; reflexivity.
  - now apply dict_find_set_other.
Qed.

Lemma fold_explicit_find text L d k :
  dict_find (fold_left (add_explicit text) L d) k =
  fold_left (fun e mt => if str_eqb k (esym text mt) then ex_step e mt else e) L
            (dict_find d k).
Proof.
  revert d. induction L as [|mt L IH]; intros d; simpl; [reflexivity|].
  rewrite IH, add_explicit_find. reflexivity.
Qed.

Lemma fold_context_find text L d k :
  dict_find (fold_left (add_context text) L d) k =
  fold_left (fun e mt => if str_eqb k (csym text mt) then ctx_step e mt else e) L
            (dict_find d k).
Proof.
  revert d. induction L as [|mt L IH]; intros d; simpl; [reflexivity|].
  rewrite IH, add_context_find. reflexivity.
Qed.

Lemma ex_fold_some text k L ho ms :
  fold_left (fun e mt => if str_eqb k (esym text mt) then ex_step e mt else e) L
            (Some (ho, ms)) =
  Some (match ho with
        | Some h0 => Some h0
        | None => option_map snd (find (fun mt => str_eqb k (esym text mt)) L)
        end,
        ms ++ map espan (filter (fun mt => str_eqb k (esym text mt)) L)).
Proof.
  revert ho ms. induction L as [|x L IH]; intros ho ms; simpl.
  - rewrite app_nil_r. destruct ho; reflexivity.
  - destruct (str_eqb k (esym text x)) eqn:E; [|apply IH].
    destruct x as [[a b] h]. simpl. rewrite IH, <- app_assoc.
    destruct ho; reflexivity.
Qed.

Lemma ex_fold_none text k L :
  fold_left (fun e mt => if str_eqb k (esym text mt) then ex_step e mt else e) L None =
  match find (fun mt => str_eqb k (esym text mt)) L with
  | None => None
  | Some mt0 => Some (Some (snd mt0),
                      map espan (filter (fun mt => str_eqb k (esym text mt)) L))
  end.
Proof.
  induction L as [|x L IH]; simpl; [reflexivity|].
  destruct (str_eqb k (esym text x)) eqn:E; [|apply IH].
  destruct x as [[a b] h]. simpl. rewrite ex_fold_some. reflexivity.
Qed.

Lemma ctx_fold text k L e0 :
  fold_left (fun e mt => if str_eqb k (csym text mt) then ctx_step e mt else e) L e0 =
  match filter (fun mt => str_eqb k (csym text mt)) L with
  | [] => e0
  | _ => Some (match e0 with Some (h, _) => h | None => None end,
               match e0 with Some (_, ms) => ms | None => [] end ++
               map cspan (filter (fun mt => str_eqb k (csym text mt)) L))
  end.
Proof.
  revert e0. induction L as [|x L IH]; intros e0; simpl; [reflexivity|].
  destruct (str_eqb k (csym text x)) eqn:E; [|apply IH].
  rewrite IH. destruct x as [a b]. simpl.
  destruct (filter _ L) eqn:F; simpl; [reflexivity|].
  rewrite <- app_assoc. reflexivity.
Qed.

Lemma find_none_filter {A} (f : A -> bool) l : find f l = None -> filter f l = [].
Proof.
  induction l as [|x l IH]; simpl; [reflexivity|]. destruct (f x); [discriminate | exact IH].
Qed.

Lemma filter_ext_sym {A} (g : A -> str) k l :
  filter (fun x => str_eqb k (g x)) l = filter (fun x => str_eqb (g x) k) l.
Proof. apply filter_ext. intros x. apply str_eqb_sym. Qed.

Lemma find_ext_sym {A} (g : A -> str) k l :
  find (fun x => str_eqb k (g x)) l = find (fun x => str_eqb (g x) k) l.
Proof.
  induction l as [|x l IH]; simpl; [reflexivity|]. now rewrite str_eqb_sym, IH.
Qed.

(** The entry of symbol [k] in the final dictionary, in closed form. *)
Lemma extract_dict_find text k :
  dict_find (fold_left (add_context text) (finditer_all match_context text)
               (fold_left (add_explicit text) (finditer_all match_explicit text) [])) k =
  match filter (fun mt => str_eqb (esym text mt) k) (finditer_all match_explicit text),
        filter (fun mt => str_eqb (csym text mt) k) (finditer_all match_context text) with
  | [], [] => None
  | _, _ =>
      Some (option_map snd (find (fun mt => str_eqb (esym text mt) k)
                                 (finditer_all match_explicit text)),
            map espan (filter (fun mt => str_eqb (esym text mt) k)
                              (finditer_all match_explicit text)) ++
            map cspan (filter (fun mt => str_eqb (csym text mt) k)
                              (finditer_all match_context text)))
  end.
Proof.
  rewrite fold_context_find, fold_explicit_find. simpl dict_find.
  rewrite ex_fold_none, ctx_fold, <- !filter_ext_sym, <- find_ext_sym.
  set (EM := finditer_all match_explicit text).
  set (CM := finditer_all match_context text).
  destruct (find (fun mt => str_eqb k (esym text mt)) EM) as [mt0|] eqn:Hf.
  - assert (Hne : filter (fun mt => str_eqb k (esym text mt)) EM <> []).
    { apply find_some in Hf as [Hin Hp]. intros H.
      assert (In mt0 (filter (fun mt => str_eqb k (esym text mt)) EM))
        by (apply filter_In; auto).
      rewrite H in *. contradiction. }
    destruct (filter (fun mt => str_eqb k (esym text mt)) EM) as [|x r]; [congruence|].
    destruct (filter (fun mt => str_eqb k (csym text mt)) CM); simpl;
      [now rewrite app_nil_r | reflexivity].
  - rewrite (find_none_filter _ _ Hf). simpl.
    destruct (filter (fun mt => str_eqb k (csym text mt)) CM); reflexivity.
Qed.

Lemma extract_genes_entry text g :
  In g (extract_genes text) ->
  dict_find (fold_left (add_context text) (finditer_all match_context text)
               (fold_left (add_explicit text) (finditer_all match_explicit text) []))
            (symbol g) = Some (hgnc_id g, mentions g).
Proof.
  destruct (extract_dict_inv text) as [Hnd _].
  unfold extract_genes. intros Hg. apply in_map_iff in Hg as ([k [h ms]] & <- & Hin).
  simpl. now apply dict_find_nodup.
Qed.

(** [extract_genes]: a record's HGNC id is the number of the first explicit
    [SYMBOL (... HGNC:n)] match of its symbol in the text, and [None] when
    the symbol only occurs in the variant/mutation context pattern; later
    explicit matches with other numbers never replace it. *)
Theorem extract_genes_hgnc_first text g :
  In g (extract_genes text) ->
  hgnc_id g = option_map snd (find (fun mt => str_eqb (esym text mt) (symbol g))
                                   (finditer_all match_explicit text)).
Proof.
  intros Hg. pose proof (extract_genes_entry text g Hg) as E.
  rewrite extract_dict_find in E.
  destruct (filter _ (finditer_all match_explicit text)), (filter _ (finditer_all match_context text));
    try discriminate; injection E as <- _; reflexivity.
Qed.

Lemma extract_genes_mentions_eq text g :
  In g (extract_genes text) ->
  mentions g =
  map espan (filter (fun mt => str_eqb (esym text mt) (symbol g))
                    (finditer_all match_explicit text)) ++
  map cspan (filter (fun mt => str_eqb (csym text mt) (symbol g))
                    (finditer_all match_context text)).
Proof.
  intros Hg. pose proof (extract_genes_entry text g Hg) as E.
  rewrite extract_dict_find in E.
  destruct (filter _ (finditer_all match_explicit text)), (filter _ (finditer_all match_context text));
    try discriminate; injection E as _ <-; reflexivity.
Qed.

(** [extract_genes]: a record's mentions are the offsets of the explicit
    matches of its symbol, in text order, followed by the offsets of its
    context matches, in text order. *)
Theorem extract_genes_mentions text g :
  In g (extract_genes text) ->
  mentions g =
  map espan (filter (fun mt => str_eqb (esym text mt) (symbol g))
                    (finditer_all match_explicit text)) ++
  map cspan (filter (fun mt => str_eqb (csym text mt) (symbol g))
                    (finditer_all match_context text)).
Proof. apply extract_genes_mentions_eq. Qed.

Lemma fold_add_explicit_keys text L d :
  map fst (fold_left (add_explicit text) L d) = fold_left add_key (map (esym text) L) (map fst d).
Proof.
  revert d. induction L as [|[[a b] h] L IH]; intros d; simpl; [reflexivity|].
  rewrite IH. f_equal. unfold add_explicit. apply dict_set_fst.
Qed.

Lemma fold_add_context_keys text L d :
  map fst (fold_left (add_context text) L d) = fold_left add_key (map (csym text) L) (map fst d).
Proof.
  revert d. induction L as [|[a b] L IH]; intros d; simpl; [reflexivity|].
  rewrite IH. f_equal. unfold add_context. apply dict_set_fst.
Qed.

Lemma extract_genes_symbols_eq text :
  map symbol (extract_genes text) =
  first_occurrences (map (esym text) (finditer_all match_explicit text) ++
                     map (csym text) (finditer_all match_context text)).
Proof.
  unfold extract_genes, first_occurrences. rewrite map_map. simpl.
  change (fun x : str * (option Z * list (Z * Z)) => fst x) with
    (@fst str (option Z * list (Z * Z))).
  rewrite fold_left_app, fold_add_context_keys, fold_add_explicit_keys.
  reflexivity.
Qed.

(** [extract_genes]: one record per distinct symbol found, listed in order
    of first occurrence among the explicit matches followed by the context
    matches (the dictionary's insertion order). *)
Theorem extract_genes_symbols text :
  map symbol (extract_genes text) =
  first_occurrences (map (esym text) (finditer_all match_explicit text) ++
                     map (csym text) (finditer_all match_context text)).
Proof. apply extract_genes_symbols_eq. Qed.

Lemma match_explicit_shape s p a b h e :
  match_explicit s p = Some ((a, b, h), e) ->
  a = p /\ b = (p + count_while gene_char (skipn p s))%nat /\
  (a < b <= List.length s)%nat /\ (b < e)%nat.
Proof.
  intros H. pose proof (match_explicit_bounds _ _ _ _ _ _ H) as Hb.
  unfold match_explicit in H. cbv zeta in H.
  repeat (destruct_in H; try discriminate H).
  injection H as <- <- _ <-. repeat split; auto; lia.
Qed.

Lemma gene_group_at_shape s g a b e :
  gene_group_at s g = Some ((a, b), e) ->
  a = g /\ b = e /\ (1 <= b - a <= count_while gene_char_ci (skipn a s))%nat.
Proof.
  unfold gene_group_at.
  destruct (longest_wb _ _ _) as [l|] eqn:E; [|discriminate].
  intros [= <- <- <-]. apply longest_wb_bounds in E. repeat split; lia.
Qed.

Lemma article_then_gene_shape s q w a b e :
  article_then_gene s q w = Some ((a, b), e) ->
  (q <= a)%nat /\ b = e /\ (1 <= b - a <= count_while gene_char_ci (skipn a s))%nat.
Proof.
  unfold article_then_gene. destruct (ci_at s q w); [|discriminate].
  destruct (Nat.eqb _ 0); [discriminate|].
  intros H. apply gene_group_at_shape in H as (-> & -> & H). split; [lia | auto].
Qed.

Lemma context_rest_shape s q a b e :
  context_rest s q = Some ((a, b), e) ->
  (q <= a)%nat /\ b = e /\ (1 <= b - a <= count_while gene_char_ci (skipn a s))%nat.
Proof.
  unfold context_rest.
  destruct (Nat.eqb (ws_run s q) 0); [discriminate|].
  destruct (negb _); [discriminate|].
  destruct (Nat.eqb _ 0); [discriminate|].
  intros H. apply first_some_in in H. simpl in H.
  destruct H as [H | [H | [H | []]]];
    [apply article_then_gene_shape in H | apply article_then_gene_shape in H
    | apply gene_group_at_shape in H as (-> & H)];
    destruct H as (H1 & H2); split; auto; lia.
Qed.

Lemma match_context_shape s p a b e :
  match_context s p = Some ((a, b), e) ->
  (p <= a)%nat /\ b = e /\ (1 <= b - a <= count_while gene_char_ci (skipn a s))%nat.
Proof.
  unfold match_context. intros H. apply first_some_in, in_map_iff in H.
  destruct H as (w & Hw & _). destruct (ci_at s p w); [|discriminate].
  apply context_rest_shape in Hw as (H1 & H2). split; auto; lia.
Qed.

Lemma firstn_count_while f l n :
  (n <= count_while f l)%nat -> Forall (fun c => f c = true) (firstn n l).
Proof.
  revert n. induction l as [|c l IH]; intros n Hn; [destruct n; constructor|].
  destruct n as [|n]; [constructor|]. simpl in *.
  destruct (f c) eqn:E; [|lia]. constructor; [exact E | apply IH; lia].
Qed.

Lemma firstn_length_le' {A} (l : list A) n :
  (n <= List.length l)%nat -> List.length (firstn n l) = n.
Proof. intros H. rewrite length_firstn. lia. Qed.

Lemma count_while_le_length f l : (count_while f l <= List.length l)%nat.
Proof. apply count_while_le. Qed.

Lemma upper_gene_char_ci c :
  gene_char_ci c = true -> gene_char (upper_char c) = true.
Proof. all_ascii c; vm_compute; intros H; first [discriminate H | reflexivity]. Qed.

Lemma upper_gene_char c : gene_char c = true -> upper_char c = c.
Proof. all_ascii c; vm_compute; intros H; first [discriminate H | reflexivity]. Qed.

(** The text of an explicit match's group 1, and of a context match's. *)
Lemma explicit_slice s p mt e :
  match_explicit s p = Some (mt, e) ->
  slice s (fst (fst mt)) (snd (fst mt)) <> [] /\
  Forall (fun c => gene_char c = true) (slice s (fst (fst mt)) (snd (fst mt))).
Proof.
  destruct mt as [[a b] h]. intros H. apply match_explicit_shape in H as (-> & -> & Hb & _).
  simpl. unfold slice. replace (p + count_while gene_char (skipn p s) - p)%nat
    with (count_while gene_char (skipn p s)) by lia.
  split; [|apply firstn_count_while; lia].
  intros E. apply (f_equal (@List.length ascii)) in E.
  rewrite firstn_length_le' in E by apply count_while_le. simpl in E. lia.
Qed.

Lemma context_slice s p mt e :
  match_context s p = Some (mt, e) ->
  slice s (fst mt) (snd mt) <> [] /\
  Forall (fun c => gene_char_ci c = true) (slice s (fst mt) (snd mt)).
Proof.
  destruct mt as [a b]. intros H. apply match_context_shape in H as (_ & _ & Hl).
  simpl. unfold slice. split; [|apply firstn_count_while; lia].
  intros E. apply (f_equal (@List.length ascii)) in E.
  pose proof (count_while_le gene_char_ci (skipn a s)).
  rewrite firstn_length_le' in E by lia. simpl in E. lia.
Qed.

Lemma add_key_in ks k x : In x (add_key ks k) -> In x ks \/ x = k.
Proof.
  unfold add_key. destruct (mem_str k ks); [auto|].
  rewrite in_app_iff. intros [H | [H | []]]; auto.
Qed.

Lemma fold_add_key_in l ks x :
  In x (fold_left add_key l ks) -> In x ks \/ In x l.
Proof.
  revert ks. induction l as [|k l IH]; intros ks; simpl; [auto|].
  intros H. apply IH in H as [H | H]; auto.
  apply add_key_in in H as [H | ->]; auto.
Qed.

Definition gene_symbol_ok (sym : str) : Prop :=
  sym <> [] /\ Forall (fun c => gene_char c = true) sym.

Lemma esym_ok text mt :
  In mt (finditer_all match_explicit text) -> gene_symbol_ok (esym text mt).
Proof.
  intros H. apply finditer_in in H as (p & e & H).
  apply explicit_slice in H as [H1 H2]. destruct mt as [[a b] h]. simpl in *.
  unfold upper. split.
  - intros E. apply H1. destruct (slice text a b); [reflexivity | discriminate].
  - rewrite map_ext_in with (g := fun c => c); [rewrite map_id; exact H2|].
    intros c Hc. apply upper_gene_char. rewrite Forall_forall in H2. auto.
Qed.

Lemma csym_ok text mt :
  In mt (finditer_all match_context text) -> gene_symbol_ok (csym text mt).
Proof.
  intros H. apply finditer_in in H as (p & e & H).
  apply context_slice in H as [H1 H2]. destruct mt as [a b]. simpl in *.
  unfold upper. split.
  - intros E. apply H1. destruct (slice text a b); [reflexivity | discriminate].
  - apply Forall_map. eapply Forall_impl; [|exact H2]. intros c. apply upper_gene_char_ci.
Qed.

Lemma extract_genes_symbol_ok text g :
  In g (extract_genes text) -> gene_symbol_ok (symbol g).
Proof.
  intros H. apply (in_map symbol) in H. rewrite extract_genes_symbols_eq in H.
  apply fold_add_key_in in H as [[] | H].
  apply in_app_iff in H as [H | H]; apply in_map_iff in H as (mt & <- & H);
    [apply esym_ok | apply csym_ok]; exact H.
Qed.

Lemma finditer_ordered {A} (m : str -> nat -> option (A * nat)) s (lo hi : A -> nat)
  (Hm : forall p x e, m s p = Some (x, e) -> (p <= lo x <= hi x /\ hi x <= e)%nat) fuel p :
  Forall (fun x => (p <= lo x)%nat) (finditer m s fuel p) /\
  ForallOrdPairs (fun x y => (hi x <= lo y)%nat) (finditer m s fuel p).
Proof.
  revert p. induction fuel as [|f IH]; intros p; simpl; [split; constructor|].
  destruct (Nat.ltb _ _); [split; constructor|].
  destruct (m s p) as [[a e]|] eqn:E.
  - apply Hm in E as [[E1 E3] E2]. destruct (IH e) as [H1 H2]. split.
    + constructor; [exact E1|]. eapply Forall_impl; [|exact H1]. intros ? Hx; simpl in Hx; lia.
    + constructor; [|exact H2]. eapply Forall_impl; [|exact H1]. intros ? Hx; simpl in Hx; lia.
  - destruct (IH (S p)) as [H1 H2]. split; [|exact H2].
    eapply Forall_impl; [|exact H1]. intros ? Hx; simpl in Hx; lia.
Qed.

Lemma ForallOrdPairs_filter {A} (R : A -> A -> Prop) f l :
  ForallOrdPairs R l -> ForallOrdPairs R (filter f l).
Proof.
  induction 1 as [|a l Ha Hl IH]; simpl; [constructor|].
  destruct (f a); [|exact IH]. constructor; [|exact IH].
  apply Forall_forall. intros y Hy. apply filter_In in Hy as [Hy _].
  rewrite Forall_forall in Ha. auto.
Qed.

Lemma ForallOrdPairs_map {A B} (R : A -> A -> Prop) (R' : B -> B -> Prop) (g : A -> B) l :
  (forall x y, R x y -> R' (g x) (g y)) ->
  ForallOrdPairs R l -> ForallOrdPairs R' (map g l).
Proof.
  intros HR. induction 1 as [|a l Ha Hl IH]; simpl; constructor; [|exact IH].
  apply Forall_map. eapply Forall_impl; [|exact Ha]. auto.
Qed.

Lemma explicit_ordered text :
  ForallOrdPairs (fun x y : nat * nat * Z => (snd (fst x) <= fst (fst y))%nat)
    (finditer_all match_explicit text).
Proof.
  apply (finditer_ordered match_explicit text (fun x => fst (fst x)) (fun x => snd (fst x))).
  intros p [[a b] h] e H. apply match_explicit_shape in H as (-> & _ & H' & H). simpl. lia.
Qed.

Lemma context_ordered text :
  ForallOrdPairs (fun x y : nat * nat => (snd x <= fst y)%nat) (finditer_all match_context text).
Proof.
  apply (finditer_ordered match_context text fst snd).
  intros p [a b] e H. apply match_context_shape in H as (H1 & -> & H2). simpl. lia.
Qed.

Definition span_before (m1 m2 : Z * Z) : Prop := (snd m1 <= fst m2)%Z.

Definition span_in (text : str) (m : Z * Z) : Prop :=
  (0 <= fst m < snd m /\ snd m <= Z.of_nat (List.length text))%Z.

Lemma upper_id_gene s : Forall (fun c => gene_char c = true) s -> upper s = s.
Proof.
  intros H. unfold upper. rewrite map_ext_in with (g := fun c => c); [apply map_id|].
  intros c Hc. apply upper_gene_char. rewrite Forall_forall in H. auto.
Qed.

(** A record's mentions are its explicit spans followed by its context spans;
    each of the two runs is in increasing order with no two spans overlapping,
    every span lies inside the text, an explicit span's text is the symbol
    itself (same case), and a context span's text is the symbol up to case. *)
Theorem extract_genes_mentions_ordered text g :
  In g (extract_genes text) ->
  exists E C, mentions g = E ++ C /\
    ForallOrdPairs span_before E /\ ForallOrdPairs span_before C /\
    Forall (fun m => span_in text m /\
                     slice text (Z.to_nat (fst m)) (Z.to_nat (snd m)) = symbol g) E /\
    Forall (fun m => span_in text m /\
                     upper (slice text (Z.to_nat (fst m)) (Z.to_nat (snd m))) = symbol g) C.
Proof.
  intros H. rewrite (extract_genes_mentions_eq text g H).
  eexists _, _. split; [reflexivity|]. split; [|split; [|split]].
  - eapply ForallOrdPairs_map; [|apply ForallOrdPairs_filter, explicit_ordered].
    intros [[a b] h] [[c d] k]. unfold span_before. simpl. lia.
  - eapply ForallOrdPairs_map; [|apply ForallOrdPairs_filter, context_ordered].
    intros [a b] [c d]. unfold span_before. simpl. lia.
  - apply Forall_map, Forall_forall. intros [[a b] h] Hm.
    apply filter_In in Hm as [Hm Heq]. apply str_eqb_spec in Heq.
    pose proof Hm as Hm'. apply finditer_in in Hm' as (p & e & Hme).
    pose proof (match_explicit_bounds _ _ _ _ _ _ Hme) as Hb.
    apply explicit_slice in Hme as [_ Hc]. simpl in *.
    unfold span_in. simpl. rewrite !Nat2Z.id. split; [lia|].
    rewrite <- Heq. symmetry. apply upper_id_gene. exact Hc.
  - apply Forall_map, Forall_forall. intros [a b] Hm.
    apply filter_In in Hm as [Hm Heq]. apply str_eqb_spec in Heq.
    apply finditer_in in Hm as (p & e & Hme).
    pose proof (match_context_bounds _ _ _ _ _ Hme) as Hb.
    unfold span_in. simpl. rewrite !Nat2Z.id. split; [lia | exact Heq].
Qed.

Lemma closest_go_from w dc : forall gs best min i,
  closest_go w dc gs best min = Some i -> best = Some i \/ exists g, In (i, g) gs.
Proof.
  induction gs as [|[i0 g0] r IH]; intros best min i; simpl; [auto|].
  destruct (find (inside w) (mentions g0)) as [[ms me]|].
  - destruct (lt_inf _ _).
    + intros H. apply IH in H as [[= ->] | (g & Hg)]; right; eauto.
    + intros H. apply IH in H as [H | (g & Hg)]; [auto | right; eauto].
  - intros H. apply IH in H as [H | (g & Hg)]; [auto | right; eauto].
Qed.

Lemma unique_gene_in_from genes w j :
  unique_gene_in genes w = Some j ->
  exists g h, nth_error genes j = Some g /\ In h genes /\ has_mention_in w h /\
              symbol h = symbol g.
Proof.
  unfold unique_gene_in. destruct (symbols_in genes w) as [|s [|s' r]] eqn:Hs;
    try discriminate.
  intros Hf. apply find_index_spec in Hf as (g & Hg & Hsym & _).
  apply str_eqb_spec in Hsym.
  assert (Hin : In s (symbols_in genes w)) by (rewrite Hs; now left).
  apply in_symbols_in in Hin as (h & Hh & Hm & Hhs). exists g, h. repeat split; congruence.
Qed.

Lemma adjacent_link_from sentences genes k j :
  adjacent_link sentences genes k = Some j ->
  exists w g h, nth_error genes j = Some g /\ In h genes /\ has_mention_in w h /\
                symbol h = symbol g.
Proof.
  unfold adjacent_link.
  destruct (if (0 <? k)%nat then _ else None) as [j0|] eqn:Hp.
  - intros [= <-]. destruct (0 <? k)%nat; [|discriminate].
    destruct (nth_error sentences (k - 1)) as [pw|]; [|discriminate].
    apply unique_gene_in_from in Hp. eauto.
  - destruct (k <? _)%nat; [|discriminate].
    destruct (nth_error sentences (k + 1)) as [nw|]; [|discriminate].
    intros H. apply unique_gene_in_from in H. eauto.
Qed.

(** The gene [link] updates carries the symbol of a gene that has a mention. *)
Lemma link_cases sentences genes ent name :
  link sentences genes ent name = genes \/
  exists j g h, nth_error genes j = Some g /\
    link sentences genes ent name = update_nth j (add_disease name) genes /\
    In h genes /\ mentions h <> [] /\ symbol h = symbol g.
Proof.
  unfold link. destruct (genes_in_window (sent ent) genes) as [|x r] eqn:Hw.
  - destruct (sent_index _ _) as [k|]; [|auto].
    destruct (adjacent_link sentences genes k) as [j|] eqn:Ha; [|auto].
    right. apply adjacent_link_from in Ha as (w & g & h & Hg & Hh & (m & Hm & _) & Hs).
    exists j, g, h. repeat split; auto. intros E. rewrite E in Hm. destruct Hm.
  - destruct (closest_go _ _ _ _ _) as [i|] eqn:Hc; [|auto].
    right. apply closest_go_from in Hc as [[=] | (g & Hg)].
    rewrite <- Hw in Hg. apply in_window in Hg as [Hg (m & Hm & _)].
    exists i, g, g. repeat split; auto.
    + eapply nth_error_In; eauto.
    + intros E. rewrite E in Hm. destruct Hm.
Qed.

Lemma nth_error_update_nth {A} (f : A -> A) : forall l j i,
  nth_error (update_nth j f l) i =
  if Nat.eqb i j then option_map f (nth_error l i) else nth_error l i.
Proof.
  induction l as [|x l IH]; intros [|j] [|i]; simpl; auto;
    destruct (Nat.eqb _ _); reflexivity.
Qed.

Lemma map_symbol_update j name l :
  map symbol (update_nth j (add_disease name) l) = map symbol l.
Proof.
  revert j. induction l as [|x l IH]; intros [|j]; simpl; f_equal; auto.
Qed.

Lemma Forall2_update_nth {A B} (R : A -> B -> Prop) (f : B -> B) l1 : forall l2 j,
  (forall a b, R a b -> R a (f b)) -> Forall2 R l1 l2 -> Forall2 R l1 (update_nth j f l2).
Proof.
  induction l1 as [|a l1 IH]; intros l2 j Hf H; inversion H as [|? b ? l2' Hab Hr]; subst.
  - destruct j; constructor.
  - destruct j; simpl; constructor; auto.
Qed.

Lemma disease_list_add name g x :
  In x (disease_list (add_disease name g)) -> In x (disease_list g) \/ x = name.
Proof.
  unfold disease_list, add_disease, set_add. simpl.
  destruct (mem_str _ _); [auto|]. rewrite in_app_iff. intros [H | [H | []]]; auto.
Qed.

Lemma nodup_symbol_index genes i j g h :
  NoDup (map symbol genes) -> nth_error genes i = Some g -> nth_error genes j = Some h ->
  symbol g = symbol h -> i = j.
Proof.
  intros Hnd Hi Hj Hs. eapply NoDup_nth_error; [exact Hnd | |].
  - apply nth_error_Some. rewrite nth_error_map, Hi. discriminate.
  - rewrite !nth_error_map, Hi, Hj. simpl. congruence.
Qed.

Lemma process_ent_cases http json sentences genes ent :
  process_ent http json sentences genes ent = genes \/
  (accepts http json ent = true /\
   exists j g h, nth_error genes j = Some g /\
     process_ent http json sentences genes ent =
       update_nth j (add_disease (disease_name_of ent)) genes /\
     In h genes /\ mentions h <> [] /\ symbol h = symbol g).
Proof.
  rewrite process_ent_accepts. destruct (accepts http json ent) eqn:Ha; [|auto].
  destruct (link_cases sentences genes ent (disease_name_of ent)) as [H | H]; auto.
Qed.

(** One disease entity changes at most one gene: [process_ent] either
    returns the list unchanged or, for an entity that passes the filters,
    adds the entity's disease name to the one gene at some position [j]. That
    gene's symbol is the symbol of a gene with at least one mention. *)
Theorem process_ent_single_update http json sentences genes ent :
  process_ent http json sentences genes ent = genes \/
  (accepts http json ent = true /\
   exists j g h, nth_error genes j = Some g /\
     process_ent http json sentences genes ent =
       update_nth j (add_disease (disease_name_of ent)) genes /\
     In h genes /\ mentions h <> [] /\ symbol h = symbol g).
Proof. apply process_ent_cases. Qed.

Definition name_from (http : str -> list (str * str) -> response)
    (json : str -> option jvalue) (es : list span) (g g' : gene) : Prop :=
  forall x, In x (disease_list g') ->
    In x (disease_list g) \/
    exists e, In e es /\ accepts http json e = true /\ x = disease_name_of e.

Lemma associate_name_from http json genes d :
  Forall2 (name_from http json (ents d)) genes (associate_diseases http json genes d).
Proof.
  unfold associate_diseases. generalize (sents d) as sentences. intros sentences.
  assert (H : forall es acc, incl es (ents d) ->
            Forall2 (name_from http json (ents d)) genes acc ->
            Forall2 (name_from http json (ents d)) genes
              (fold_left (process_ent http json sentences) es acc)).
  { induction es as [|e es IH]; intros acc Hincl Hacc; simpl; [exact Hacc|].
    apply IH; [intros y Hy; apply Hincl; now right|].
    destruct (process_ent_cases http json sentences acc e)
      as [-> | (Hacc' & j & g & h & _ & -> & _)]; [exact Hacc|].
    apply Forall2_update_nth; [|exact Hacc].
    intros a b Hab x Hx. apply disease_list_add in Hx as [Hx | ->]; [now apply Hab|].
    right. exists e. split; [apply Hincl; now left | auto]. }
  apply H; [apply incl_refl|]. clear H.
  induction genes as [|g genes IH]; [constructor|].
  constructor; [|exact IH]. intros x Hx. now left.
Qed.

(** Every disease name a gene holds after [associate_diseases] was already
    in its set before the call, or is the (stripped) name of one of the
    document's entities that passes all the filters. *)
Theorem associate_diseases_name_source http json genes d i g g' x :
  nth_error genes i = Some g ->
  nth_error (associate_diseases http json genes d) i = Some g' ->
  In x (disease_list g') ->
  In x (disease_list g) \/
  exists e, In e (ents d) /\ accepts http json e = true /\ x = disease_name_of e.
Proof.
  intros Hi Hi' Hx.
  pose proof (associate_name_from http json genes d) as H.
  revert i Hi Hi'. induction H as [|a b l l' Hab _ IH]; intros [|i] Hi Hi';
    simpl in *; try discriminate.
  - injection Hi as <-. injection Hi' as <-. auto.
  - eauto.
Qed.

(** When the symbols of [genes] are distinct (as [extract_genes] makes
    them), a gene with no mention is never given a disease:
    [associate_diseases] leaves it as it was. *)
Theorem associate_diseases_unmentioned http json genes d i g :
  NoDup (map symbol genes) -> nth_error genes i = Some g -> mentions g = [] ->
  nth_error (associate_diseases http json genes d) i = Some g.
Proof.
  intros Hnd Hi Hm. unfold associate_diseases.
  generalize (ents d) as es. generalize (sents d) as sentences. intros sentences es.
  revert genes Hnd Hi. induction es as [|e es IH]; intros acc Hnd Hi; simpl; [exact Hi|].
  destruct (process_ent_cases http json sentences acc e)
    as [-> | (_ & j & g0 & h & Hg0 & -> & Hh & Hhm & Hs)]; [now apply IH|].
  apply IH; [now rewrite map_symbol_update|].
  rewrite nth_error_update_nth. destruct (Nat.eqb i j) eqn:Eij; [|exact Hi].
  apply Nat.eqb_eq in Eij. subst j. exfalso.
  apply In_nth_error in Hh as (k & Hk).
  rewrite Hi in Hg0. injection Hg0 as <-.
  pose proof (nodup_symbol_index _ _ _ _ _ Hnd Hk Hi Hs) as ->.
  rewrite Hi in Hk. injection Hk as ->. contradiction.
Qed.

(** *** Strings: [strip] *)

Lemma lstrip_suffix p s : exists u, s = u ++ lstrip_by p s.
Proof.
  induction s as [|c s IH]; simpl; [now exists []|].
  destruct (p c); [destruct IH as [u Hu]; exists (c :: u); simpl; congruence | now exists []].
Qed.

Lemma lstrip_head p s :
  lstrip_by p s = [] \/ exists c r, lstrip_by p s = c :: r /\ p c = false.
Proof.
  induction s as [|c s IH]; simpl; [auto|].
  destruct (p c) eqn:E; [exact IH | right; eauto].
Qed.

Lemma rstrip_prefix p s : exists v, s = rstrip_by p s ++ v.
Proof.
  unfold rstrip_by. destruct (lstrip_suffix p (rev s)) as [u Hu].
  exists (rev u). rewrite <- rev_app_distr, <- Hu, rev_involutive. reflexivity.
Qed.

Lemma rstrip_last p s :
  rstrip_by p s = [] \/ exists x e, rstrip_by p s = x ++ [e] /\ p e = false.
Proof.
  unfold rstrip_by. destruct (lstrip_head p (rev s)) as [-> | (c & r & -> & Hc)];
    [auto | right; exists (rev r), c; split; auto].
Qed.

Lemma strip_by_infix p s : exists u v, s = u ++ strip_by p s ++ v.
Proof.
  unfold strip_by. destruct (lstrip_suffix p s) as [u Hu].
  destruct (rstrip_prefix p (lstrip_by p s)) as [v Hv].
  exists u, v. rewrite <- Hv. exact Hu.
Qed.

Lemma strip_by_shape p s :
  strip_by p s = [] \/
  ((exists c r, strip_by p s = c :: r /\ p c = false) /\
   (exists x e, strip_by p s = x ++ [e] /\ p e = false)).
Proof.
  destruct (rstrip_last p (lstrip_by p s)) as [H | (x & e & H & He)]; [left; exact H|].
  right. split; [|exists x, e; exact (conj H He)].
  destruct (lstrip_head p s) as [E | (c & r & E & Hc)].
  - unfold strip_by in H. rewrite E in H. unfold rstrip_by in H. simpl in H.
    destruct x; discriminate.
  - destruct (rstrip_prefix p (lstrip_by p s)) as [v Hv].
    unfold strip_by. rewrite H. rewrite H, E in Hv.
    destruct x as [|c' x']; simpl in Hv |- *; injection Hv as <- _; eauto.
Qed.

Lemma strip_by_idem p s : strip_by p (strip_by p s) = strip_by p s.
Proof.
  destruct (strip_by_shape p s) as [-> | [(c & r & H1 & Hc) (x & e & H2 & He)]];
    [reflexivity|].
  eapply strip_by_keep; eauto.
Qed.

Lemma strip_idem s : strip (strip s) = strip s.
Proof. apply strip_by_idem. Qed.

Lemma split_on_pieces sep s t : In t (split_on sep s) -> ~ In sep t.
Proof.
  revert t. induction s as [|c s IH]; intros t; simpl.
  - intros [<- | []]. simpl. tauto.
  - destruct (Ascii.eqb c sep) eqn:E.
    + intros [<- | H]; [simpl; tauto | auto].
    + destruct (split_on sep s) as [|t0 ts] eqn:Hs.
      * intros [<- | []]. simpl. intros [H | []]. subst. rewrite Ascii.eqb_refl in E. discriminate.
      * intros [<- | H]; [|apply IH; now right].
        simpl. intros [H | H]; [subst; rewrite Ascii.eqb_refl in E; discriminate|].
        apply (IH t0); [now left | exact H].
Qed.

(** *** The fetch helpers *)

(** [fetch_ncbi_aliases] returns clean aliases: each one is non-empty,
    carries no surrounding whitespace and contains no comma. *)
Theorem fetch_ncbi_aliases_clean http json eid l :
  fetch_ncbi_aliases http json eid = Ok l ->
  Forall (fun a => a <> [] /\ strip a = a /\ ~ In ","%char a) l.
Proof.
  unfold fetch_ncbi_aliases. intros H.
  destruct (match http _ [] with NetError => _ | Resp _ _ => _ end) as [data|ex];
    [|injection H as <-; constructor].
  destruct (py_get data "result" (JObj [])) as [r0|ex]; cbn [bind] in H; [|discriminate].
  destruct (py_get r0 eid (JObj [])) as [r|ex]; cbn [bind] in H; [|discriminate].
  destruct (py_get r "otheraliases" (JStr [])) as [a|ex]; cbn [bind] in H; [|discriminate].
  destruct (negb (py_truthy a)); [injection H as <-; constructor|].
  destruct a; try discriminate. injection H as <-.
  apply Forall_forall. intros a Ha. apply filter_In in Ha as [Ha Hne].
  apply in_map_iff in Ha as (t & <- & Ht). rewrite strip_idem.
  split; [intros E; rewrite E in Hne; discriminate|]. split; [reflexivity|].
  destruct (strip_by_infix is_space t) as (u & v & Huv). intros Hc.
  apply (split_on_pieces _ _ _ Ht). rewrite Huv. apply in_or_app. right.
  apply in_or_app. left. exact Hc.
Qed.

(** For a non-empty identifier without the [HGNC:] prefix,
    [fetch_hgnc_by_id] makes the same request as for the prefixed one. *)
Theorem fetch_hgnc_by_id_prefix http json x :
  x <> [] -> startswith x "HGNC:" = false ->
  fetch_hgnc_by_id http json x = fetch_hgnc_by_id http json (lit "HGNC:" ++ x).
Proof.
  intros Hx Hs. unfold fetch_hgnc_by_id.
  destruct x as [|c x]; [congruence|]. rewrite Hs. reflexivity.
Qed.

Definition hgnc_fails (http : str -> list (str * str) -> response)
    (json : str -> option jvalue) : Prop :=
  forall u ps, match http u ps with
               | NetError => True
               | Resp st txt => (400 <= st < 600) \/ json txt = None
               end.

Lemma hgnc_api_fails http json path :
  hgnc_fails http json -> exists e, _hgnc_api http json path = Raise e.
Proof.
  intros H. unfold _hgnc_api.
  specialize (H (lit "https://rest.genenames.org/" ++ path) []).
  destruct (http _ []) as [|st txt]; [eauto|].
  unfold raise_for_status. destruct H as [Hst | Hj].
  - replace ((400 <=? st) && (st <? 600)) with true
      by (symmetry; apply andb_true_iff; split; [apply Z.leb_le | apply Z.ltb_lt]; lia).
    cbn [bind]. eauto.
  - destruct ((400 <=? st) && (st <? 600)); cbn [bind]; [eauto|].
    unfold resp_json', resp_json. rewrite Hj. eauto.
Qed.

Lemma hgnc_failure_empty http json sym hid :
  hgnc_fails http json ->
  fetch_hgnc_by_symbol http json sym = Ok (JObj []) /\
  fetch_hgnc_by_id http json hid = Ok (JObj []).
Proof.
  intros H. unfold fetch_hgnc_by_symbol, fetch_hgnc_by_id. split.
  - destruct (hgnc_api_fails http json (lit "fetch/symbol/" ++ sym) H) as [e ->].
    reflexivity.
  - destruct hid as [|c r]; [reflexivity|].
    match goal with |- context [_hgnc_api http json ?p] =>
      destruct (hgnc_api_fails http json p H) as [e ->] end.
    reflexivity.
Qed.

(** When every HGNC request fails (network error, a 4xx or 5xx status, or
    a body that is not JSON), both HGNC lookups return the empty record
    [{}] instead of raising. *)
Theorem fetch_hgnc_failure_empty http json sym hid :
  hgnc_fails http json ->
  fetch_hgnc_by_symbol http json sym = Ok (JObj []) /\
  fetch_hgnc_by_id http json hid = Ok (JObj []).
Proof. apply hgnc_failure_empty. Qed.

(** Without a 200 answer from Ensembl (network error or any other
    status), [fetch_coordinates_by_ensembl] returns the empty string. *)
Theorem fetch_coordinates_non_200 http json py_str ens asm :
  (forall u ps, match http u ps with NetError => True | Resp st _ => st <> 200 end) ->
  fetch_coordinates_by_ensembl http json py_str ens asm = Ok [].
Proof.
  intros H. unfold fetch_coordinates_by_ensembl.
  match goal with |- context [http ?u []] => specialize (H u []);
    destruct (http u []) as [|st txt] end; [reflexivity|].
  replace (st =? 200) with false by (symmetry; apply Z.eqb_neq; exact H).
  reflexivity.
Qed.

(** The assembly name only selects the server: any spelling of hg19 or
    GRCh37 (letter case ignored) gives the hg19 lookup, anything else the
    hg38 one. *)
Theorem fetch_coordinates_assembly http json py_str ens asm :
  fetch_coordinates_by_ensembl http json py_str ens asm =
  if str_eqb (lower asm) "hg19" || str_eqb (lower asm) "grch37"
  then fetch_coordinates_by_ensembl http json py_str ens "hg19"
  else fetch_coordinates_by_ensembl http json py_str ens "hg38".
Proof.
  unfold fetch_coordinates_by_ensembl.
  destruct (str_eqb (lower asm) "hg19" || str_eqb (lower asm) "grch37"); reflexivity.
Qed.

(** *** [sorted] on strings *)

Definition str_lt (a b : str) : Prop := str_cmp a b = Lt.

Lemma str_cmp_eq a b : str_cmp a b = Eq -> a = b.
Proof.
  revert b. induction a as [|x a IH]; intros [|y b]; simpl; try discriminate; auto.
  destruct (N.compare (N_of_ascii x) (N_of_ascii y)) eqn:E; try discriminate.
  intros H. apply N.compare_eq in E.
  rewrite <- (ascii_N_embedding x), <- (ascii_N_embedding y), E. f_equal. auto.
Qed.

Lemma str_cmp_antisym a b : str_cmp b a = CompOpp (str_cmp a b).
Proof.
  revert b. induction a as [|x a IH]; intros [|y b]; simpl; auto.
  rewrite (N.compare_antisym (N_of_ascii y) (N_of_ascii x)).
  destruct (N.compare (N_of_ascii y) (N_of_ascii x)); simpl; auto.
Qed.

Lemma str_cmp_refl a : str_cmp a a = Eq.
Proof. induction a as [|x a IH]; simpl; [reflexivity|]. now rewrite N.compare_refl. Qed.

Lemma str_lt_trans a b c : str_lt a b -> str_lt b c -> str_lt a c.
Proof.
  unfold str_lt. revert b c. induction a as [|x a IH]; intros [|y b] [|z c]; simpl;
    try discriminate; auto.
  destruct (N.compare (N_of_ascii x) (N_of_ascii y)) eqn:E1; try discriminate;
  destruct (N.compare (N_of_ascii y) (N_of_ascii z)) eqn:E2; try discriminate;
  intros H1 H2.
  - apply N.compare_eq in E1, E2. rewrite E1, E2, N.compare_refl. eauto.
  - apply N.compare_eq in E1. rewrite E1, E2. reflexivity.
  - apply N.compare_eq in E2. rewrite <- E2, E1. reflexivity.
  - change (N.lt (N_of_ascii x) (N_of_ascii y)) in E1.
    change (N.lt (N_of_ascii y) (N_of_ascii z)) in E2.
    assert (E3 : N.lt (N_of_ascii x) (N_of_ascii z)) by lia.
    unfold N.lt in E3. rewrite E3. reflexivity.
Qed.

Lemma str_insert_in x l y : In y (str_insert x l) <-> y = x \/ In y l.
Proof.
  induction l as [|z l IH]; simpl; [intuition congruence|].
  destruct (str_cmp x z); simpl; try rewrite IH; intuition congruence.
Qed.

Lemma str_insert_sorted x l :
  ~ In x l -> ForallOrdPairs str_lt l -> ForallOrdPairs str_lt (str_insert x l).
Proof.
  induction l as [|z l IH]; intros Hx Hs; simpl.
  - repeat constructor.
  - inversion Hs as [|? ? Hz Hl]; subst.
    destruct (str_cmp x z) eqn:E.
    + apply str_cmp_eq in E. subst. exfalso. apply Hx. now left.
    + constructor; [|exact Hs]. constructor; [exact E|].
      eapply Forall_impl; [|exact Hz]. intros y Hy. eapply str_lt_trans; eauto.
    + constructor; [|apply IH; [intros H; apply Hx; now right | exact Hl]].
      apply Forall_forall. intros y Hy. apply str_insert_in in Hy as [-> | Hy].
      * unfold str_lt. rewrite str_cmp_antisym, E. reflexivity.
      * rewrite Forall_forall in Hz. auto.
Qed.

Lemma str_sort_in l y : In y (str_sort l) <-> In y l.
Proof.
  induction l as [|x l IH]; simpl; [tauto|]. rewrite str_insert_in, IH. intuition congruence.
Qed.

Lemma str_sort_sorted l : NoDup l -> ForallOrdPairs str_lt (str_sort l).
Proof.
  induction 1 as [|x l Hx Hl IH]; simpl; [constructor|].
  apply str_insert_sorted; [rewrite str_sort_in; exact Hx | exact IH].
Qed.

(** *** The alias set of [fetch_gene_metadata] *)

Definition jdistinct (l : list jvalue) : Prop :=
  ForallOrdPairs (fun a b => py_eq_scalar a b = false) l.

Lemma py_eq_scalar_sym a b : py_eq_scalar a b = py_eq_scalar b a.
Proof.
  destruct a, b; simpl; try reflexivity;
    try apply str_eqb_sym; try apply Z.eqb_sym;
    repeat match goal with |- context [if ?b then _ else _] => destruct b end;
    try apply Z.eqb_sym; reflexivity.
Qed.

Lemma ForallOrdPairs_snoc {A} (R : A -> A -> Prop) l v :
  ForallOrdPairs R l -> Forall (fun a => R a v) l -> ForallOrdPairs R (l ++ [v]).
Proof.
  induction 1 as [|a l Ha Hl IH]; intros Hv; simpl; [repeat constructor|].
  inversion Hv; subst. constructor; [|auto]. apply Forall_app. split; auto.
Qed.

Lemma jset_add_inv v l l' : jdistinct l -> jset_add v l = Ok l' -> jdistinct l'.
Proof.
  intros Hl H. unfold jset_add in H.
  assert (K : jdistinct (if existsb (py_eq_scalar v) l then l else l ++ [v])).
  { destruct (existsb (py_eq_scalar v) l) eqn:E; [exact Hl|].
    apply ForallOrdPairs_snoc; [exact Hl|]. apply Forall_forall. intros a Ha.
    rewrite py_eq_scalar_sym. destruct (py_eq_scalar v a) eqn:Ea; [|reflexivity].
    exfalso. assert (existsb (py_eq_scalar v) l = true) by (apply existsb_exists; eauto).
    congruence. }
  destruct v; try discriminate; injection H as <-; exact K.
Qed.

Lemma jset_update_inv vs : forall l l', jdistinct l -> jset_update vs l = Ok l' -> jdistinct l'.
Proof.
  induction vs as [|v vs IH]; intros l l' Hl H; simpl in H; [injection H as <-; exact Hl|].
  destruct (jset_add v l) as [l1|] eqn:E; cbn [bind] in H; [|discriminate].
  eapply IH; [eapply jset_add_inv; eauto | exact H].
Qed.

Lemma add_fields_inv record fields : forall l l',
  jdistinct l -> add_fields record fields l = Ok l' -> jdistinct l'.
Proof.
  induction fields as [|f fs IH]; intros l l' Hl H; simpl in H; [injection H as <-; exact Hl|].
  destruct (add_field record l f) as [l1|] eqn:E; cbn [bind] in H; [|discriminate].
  apply (IH l1); [|exact H].
  unfold add_field in E. destruct (py_get record f JNull) as [v|]; cbn [bind] in E; [|discriminate].
  destruct v as [| | | [|c s] | vs |]; try (injection E as <-; exact Hl).
  - eapply jset_add_inv; eauto.
  - eapply jset_update_inv; eauto.
Qed.

Lemma keep_aliases_spec sym l kept :
  keep_aliases sym l = Ok kept -> jdistinct l ->
  NoDup kept /\ Forall (fun a => str_eqb (upper (strip a)) sym = false) kept /\
  Forall (fun a => In (JStr a) l) kept.
Proof.
  revert kept. induction l as [|v l IH]; intros kept H Hd; simpl in H.
  - injection H as <-. repeat constructor.
  - destruct v; try discriminate.
    destruct (keep_aliases sym l) as [rest|] eqn:E; cbn [bind] in H; [|discriminate].
    injection H as <-. inversion Hd as [|? ? Hv Hl]; subst.
    destruct (IH rest eq_refl Hl) as (N & F & I).
    assert (Hin : Forall (fun a => In (JStr a) (JStr s :: l)) rest)
      by (eapply Forall_impl; [|exact I]; intros a Ha; now right).
    destruct (str_eqb (upper (strip s)) sym) eqn:Es; [auto|].
    split; [|split; constructor; auto; now left].
    constructor; [|exact N]. intros Hs. rewrite Forall_forall in I, Hv.
    specialize (Hv _ (I s Hs)). simpl in Hv. rewrite str_eqb_refl in Hv. discriminate.
Qed.

Ltac result_inv H :=
  repeat match type of H with
  | bind ?m _ = _ =>
      let E := fresh "E" in destruct m eqn:E; cbn [bind] in H; [|discriminate H]
  | (if ?b then _ else _) = _ => let E := fresh "B" in destruct b eqn:E; try discriminate H
  end.

Lemma fetch_gene_metadata_some http json py_str symbol hid md :
  fetch_gene_metadata http json py_str symbol hid = Ok (Some md) ->
  md_symbol md = upper symbol /\
  exists kept, md_aliases md = join_with "; " (str_sort kept) /\ NoDup kept /\
  Forall (fun a => str_eqb (upper (strip a)) (upper symbol) = false) kept.
Proof.
  intros H. unfold fetch_gene_metadata in H. result_inv H.
  injection H as <-. split; [reflexivity|]. exists a7. split; [reflexivity|].
  assert (D4 : jdistinct a4) by (eapply add_fields_inv; [constructor | exact E4]).
  assert (D6 : jdistinct a6).
  { destruct (py_truthy a5); [|injection E6 as <-; exact D4].
    result_inv E6. eapply jset_update_inv; eauto. }
  destruct (keep_aliases_spec _ _ _ E7 D6) as (N & F & _). auto.
Qed.

(** When [fetch_gene_metadata] returns a record, its symbol is the
    upper-cased input symbol, and its aliases field is the ["; "]-join of
    strictly increasing (so distinct) aliases, none of which equals the
    symbol once stripped and upper-cased. *)
Theorem fetch_gene_metadata_result http json py_str symbol hid md :
  fetch_gene_metadata http json py_str symbol hid = Ok (Some md) ->
  md_symbol md = upper symbol /\
  exists l, md_aliases md = join_with "; " l /\ ForallOrdPairs str_lt l /\
            Forall (fun a => upper (strip a) <> upper symbol) l.
Proof.
  intros H. destruct (fetch_gene_metadata_some _ _ _ _ _ _ H) as (Hs & kept & Ha & N & F).
  split; [exact Hs|]. exists (str_sort kept). split; [exact Ha|].
  split; [apply str_sort_sorted; exact N|].
  apply Forall_forall. intros a Hin. apply (proj1 (str_sort_in kept a)) in Hin.
  rewrite Forall_forall in F. specialize (F a Hin).
  intros E. rewrite E, str_eqb_refl in F. discriminate.
Qed.


(** *** [main] *)

Lemma main_results_spec http json py_str genes rs :
  main_results http json py_str genes = Ok rs ->
  Forall (fun r => exists g md, In g genes /\ disease_list g <> [] /\
            fetch_gene_metadata http json py_str (symbol g) (hgnc_id g) = Ok (Some md) /\
            r = gene_info py_str md (disease_list g)) rs.
Proof.
  revert rs. induction genes as [|g genes IH]; intros rs H; simpl in H.
  - injection H as <-. constructor.
  - assert (W : forall rs', Forall (fun r => exists g0 md, In g0 genes /\ disease_list g0 <> [] /\
              fetch_gene_metadata http json py_str (symbol g0) (hgnc_id g0) = Ok (Some md) /\
              r = gene_info py_str md (disease_list g0)) rs' ->
            Forall (fun r => exists g0 md, In g0 (g :: genes) /\ disease_list g0 <> [] /\
              fetch_gene_metadata http json py_str (symbol g0) (hgnc_id g0) = Ok (Some md) /\
              r = gene_info py_str md (disease_list g0)) rs').
    { intros rs' F. eapply Forall_impl; [|exact F].
      intros r (g0 & md & H1 & H2). exists g0, md. split; [now right | exact H2]. }
    destruct (disease_list g) as [|d ds] eqn:Ed; [apply W, IH, H|].
    destruct (fetch_gene_metadata http json py_str (symbol g) (hgnc_id g)) as [[md|]|e] eqn:Ef;
      cbn [bind] in H; [| apply W, IH, H | discriminate].
    destruct (main_results http json py_str genes) as [rest|] eqn:Er; cbn [bind] in H;
      [|discriminate]. injection H as <-.
    constructor; [|apply W, IH; reflexivity].
    exists g, md. rewrite Ed. repeat split; auto. now left. discriminate.
Qed.

Lemma Forall2_nth_r {A B} (R : A -> B -> Prop) l l' i b :
  Forall2 R l l' -> nth_error l' i = Some b -> exists a, nth_error l i = Some a /\ R a b.
Proof.
  intros H. revert i. induction H as [|a b0 l l' Hab _ IH]; intros [|i] Hi; simpl in *;
    try discriminate; [injection Hi as <-; eauto | eauto].
Qed.

Lemma extract_genes_no_diseases text g :
  In g (extract_genes text) -> disease_list g = [].
Proof.
  unfold extract_genes. intros H. apply in_map_iff in H as (kv & <- & _). reflexivity.
Qed.

(** What [main] writes, from the article text: when it writes a CSV, the
    rows are the header and at least one gene row; each gene row is for a
    gene symbol extracted from the text (written as found: it is already
    upper-case), and its Disease cell is the ["; "]-join of the sorted,
    non-empty set of disease names linked to that gene, each of which is the
    name of a document entity that passed all the disease filters. *)
Theorem main_csv_rows http json py_str nlp text rows :
  main_from_text http json py_str nlp text = Ok (Some rows) ->
  exists rs, rows = write_csv rs /\ rs <> [] /\
  Forall (fun r => exists g ds, In g (extract_genes text) /\ gi_gene_symbol r = symbol g /\
            ds <> [] /\ gi_disease r = join_with "; " (str_sort ds) /\
            Forall (fun x => exists e, In e (ents (nlp text)) /\
                               accepts http json e = true /\ x = disease_name_of e) ds) rs.
Proof.
  unfold main_from_text. intros H.
  destruct (extract_genes text) as [|g0 gs] eqn:Eg; [discriminate|]. rewrite <- Eg in H |- *.
  set (out := associate_diseases http json (extract_genes text) (nlp text)) in H.
  destruct (main_results http json py_str out) as [rs|] eqn:Er; cbn [bind] in H; [|discriminate].
  destruct rs as [|r0 rs']; [discriminate|]. injection H as <-.
  exists (r0 :: rs'). split; [reflexivity|]. split; [discriminate|].
  apply main_results_spec in Er. eapply Forall_impl; [|exact Er].
  intros r (g' & md & Hin & Hne & Hmd & ->).
  apply In_nth_error in Hin as (i & Hi).
  destruct (Forall2_nth_r _ _ _ _ _ (associate_grows http json (nlp text) (extract_genes text)) Hi)
    as (g & Hg & [Hsk _]).
  destruct (Forall2_nth_r _ _ _ _ _ (associate_name_from http json (extract_genes text) (nlp text)) Hi)
    as (g2 & Hg2 & Hnf). rewrite Hg in Hg2. injection Hg2 as <-.
  assert (Hgin : In g (extract_genes text)) by (eapply nth_error_In; eauto).
  unfold skeleton in Hsk. injection Hsk as Hs _ _.
  exists g, (disease_list g'). split; [exact Hgin|]. split.
  - simpl. destruct (fetch_gene_metadata_some _ _ _ _ _ _ Hmd) as [-> _].
    rewrite <- Hs. apply upper_id_gene. apply (extract_genes_symbol_ok text g Hgin).
  - split; [exact Hne|]. split; [reflexivity|].
    apply Forall_forall. intros x Hx. destruct (Hnf x Hx) as [Hx' | He]; [|exact He].
    rewrite (extract_genes_no_diseases text g Hgin) in Hx'. destruct Hx'.
Qed.

(** *** [strip_tags] and [normalize_ws] *)

Lemma in_skipn {A} n (l : list A) x : In x (skipn n l) -> In x l.
Proof.
  intros H. rewrite <- (firstn_skipn n l). apply in_or_app. now right.
Qed.

Lemma strip_tags_go_in f s c : In c (strip_tags_go f s) -> In c s.
Proof.
  revert s. induction f as [|f IH]; intros s; cbn [strip_tags_go]; [auto|].
  destruct s as [|d r]; [auto|].
  destruct (Ascii.eqb d "<"%char); [destruct ((0 <? _)%nat && (_ <? _)%nat)|].
  - intros H. right. apply IH in H. eapply in_skipn, H.
  - intros [H | H]; [now left | right; apply IH, H].
  - intros [H | H]; [now left | right; apply IH, H].
Qed.

Lemma count_while_all f l : count_while f l = List.length l -> Forall (fun c => f c = true) l.
Proof.
  induction l as [|c l IH]; simpl; [constructor|].
  destruct (f c) eqn:E; [intros H; constructor; auto | discriminate].
Qed.

Lemma count_while_all' f l : Forall (fun c => f c = true) l -> count_while f l = List.length l.
Proof. induction 1 as [|c l Hc _ IH]; simpl; [reflexivity|]. now rewrite Hc, IH. Qed.

Lemma strip_tags_go_no_tag f : forall s, (List.length s <= f)%nat ->
  has_tag (strip_tags_go f s) = false.
Proof.
  induction f as [|f IH]; intros s Hl.
  - destruct s; [reflexivity | simpl in Hl; lia].
  - destruct s as [|c r]; [reflexivity|]. simpl in Hl. cbn [strip_tags_go].
    destruct (Ascii.eqb c "<"%char) eqn:Ec.
    + destruct ((0 <? count_while not_gt r)%nat && (count_while not_gt r <? List.length r)%nat)
        eqn:Em.
      * apply IH. rewrite length_skipn. lia.
      * cbn [has_tag]. rewrite Ec, (IH r) by lia. rewrite orb_false_r. simpl.
        apply andb_false_iff in Em as [Em | Em].
        -- apply Nat.ltb_ge in Em. destruct r as [|d r'].
           ++ destruct f; reflexivity.
           ++ simpl in Em. destruct (not_gt d) eqn:Ed; [lia|].
              destruct f as [|f']; [simpl in Hl; lia|]. cbn [strip_tags_go].
              assert (Ed' : Ascii.eqb d "<"%char = false)
                by (unfold not_gt in Ed; apply negb_false_iff, Ascii.eqb_eq in Ed; subst; reflexivity).
              rewrite Ed'. simpl. rewrite Ed. reflexivity.
        -- apply Nat.ltb_ge in Em.
           assert (Hall : Forall (fun d => not_gt d = true) r)
             by (apply count_while_all; pose proof (count_while_le not_gt r); lia).
           assert (Hout : Forall (fun d => not_gt d = true) (strip_tags_go f r)).
           { apply Forall_forall. intros d Hd. apply strip_tags_go_in in Hd.
             rewrite Forall_forall in Hall. auto. }
           rewrite (count_while_all' _ _ Hout), Nat.ltb_irrefl, andb_false_r. reflexivity.
    + cbn [has_tag]. rewrite Ec. simpl. apply IH. lia.
Qed.

Lemma strip_tags_go_keep f : forall s, has_tag s = false -> strip_tags_go f s = s.
Proof.
  induction f as [|f IH]; intros s H; [reflexivity|].
  destruct s as [|c r]; [reflexivity|]. cbn [has_tag] in H. apply orb_false_iff in H as [H1 H2].
  cbn [strip_tags_go]. destruct (Ascii.eqb c "<"%char); simpl in H1.
  - rewrite H1. f_equal. apply IH, H2.
  - f_equal. apply IH, H2.
Qed.

(** The tag-stripping fallback of [get_article_text] leaves no tag
    [<...>] behind (removing one tag never forms a new one), and it leaves
    a text without tags unchanged, so applying it twice changes nothing. *)
Theorem strip_tags_no_tag s :
  has_tag (strip_tags s) = false /\ (has_tag s = false -> strip_tags s = s).
Proof.
  split; [apply strip_tags_go_no_tag; lia | apply strip_tags_go_keep].
Qed.

Definition head_not_space (s : str) : Prop :=
  match s with c :: _ => is_space c = false | [] => True end.

Lemma sub_ws_shape b s :
  Forall (fun c => is_space c = true -> c = " "%char) (sub_ws b s) /\
  no_double_ws (sub_ws b s) = true /\
  (b = true -> head_not_space (sub_ws b s)).
Proof.
  revert b. induction s as [|c r IH]; intros b; simpl; [repeat constructor|].
  destruct (is_space c) eqn:Ec.
  - destruct (IH true) as (F & N & Hh). specialize (Hh eq_refl).
    destruct b; [repeat split; auto|].
    split; [constructor; auto|]. split; [|discriminate].
    destruct (sub_ws true r) as [|d r'] eqn:E; [reflexivity|].
    simpl in Hh. change (negb (is_space " "%char && is_space d) && no_double_ws (d :: r') = true).
    rewrite Hh, andb_false_r. exact N.
  - destruct (IH false) as (F & N & _).
    split; [constructor; auto; congruence|]. split; [|intros _; exact Ec].
    destruct (sub_ws false r) as [|d r'] eqn:E; [reflexivity|].
    change (negb (is_space c && is_space d) && no_double_ws (d :: r') = true).
    rewrite Ec. exact N.
Qed.

Lemma no_double_ws_app_l a b : no_double_ws (a ++ b) = true -> no_double_ws b = true.
Proof.
  induction a as [|c a IH]; simpl; [auto|].
  intros H. apply IH. destruct a as [|c' a']; simpl in *.
  - destruct b; [reflexivity|]. apply andb_true_iff in H. tauto.
  - apply andb_true_iff in H. tauto.
Qed.

Lemma no_double_ws_app_r a b : no_double_ws (a ++ b) = true -> no_double_ws a = true.
Proof.
  induction a as [|c a IH]; simpl; [auto|].
  destruct a as [|c' a']; [reflexivity|]. simpl.
  intros H. apply andb_true_iff in H as [H1 H2]. rewrite H1. simpl. apply IH. exact H2.
Qed.

Lemma sub_ws_keep s b :
  Forall (fun c => is_space c = true -> c = " "%char) s -> no_double_ws s = true ->
  (b = true -> head_not_space s) -> sub_ws b s = s.
Proof.
  revert b. induction s as [|c r IH]; intros b F N Hh; simpl; [reflexivity|].
  inversion F as [|? ? Fc Fr]; subst.
  assert (Nr : no_double_ws r = true)
    by (destruct r; [reflexivity|]; simpl in N; apply andb_true_iff in N; tauto).
  destruct (is_space c) eqn:Ec.
  - destruct b; [specialize (Hh eq_refl); simpl in Hh; congruence|].
    rewrite (Fc eq_refl). f_equal. apply IH; auto. intros _.
    destruct r as [|d r']; simpl; [exact I|]. simpl in N. rewrite Ec in N.
    destruct (is_space d); [discriminate | reflexivity].
  - f_equal. apply IH; auto. discriminate.
Qed.

(** The whitespace normalisation of [get_article_text]
    ([re.sub(r"\s+", " ", t).strip()]) yields text in normal form (single
    spaces only, none at the ends), and leaves such text unchanged, so
    applying it twice changes nothing. *)
Theorem normalize_ws_normal t :
  ws_normal (normalize_ws t) /\ (forall s, ws_normal s -> normalize_ws s = s).
Proof.
  split.
  - destruct (sub_ws_shape false t) as (F & N & _).
    destruct (strip_by_infix is_space (sub_ws false t)) as (u & v & Huv).
    unfold ws_normal, normalize_ws. split; [apply strip_idem|]. split.
    + rewrite Huv in F. apply Forall_app in F as [_ F]. apply Forall_app in F. tauto.
    + rewrite Huv in N. apply no_double_ws_app_l in N. eapply no_double_ws_app_r; eauto.
  - intros s (Hs & F & N). unfold normalize_ws. rewrite sub_ws_keep; auto. discriminate.
Qed.

(** *** [split_values] and [extract_hgnc_number] (csv_to_db.py) *)

Lemma split_on_nosep sep a : ~ In sep a -> split_on sep a = [a].
Proof.
  induction a as [|c a IH]; intros H; simpl; [reflexivity|].
  destruct (Ascii.eqb c sep) eqn:E.
  - apply Ascii.eqb_eq in E. subst. exfalso. apply H. now left.
  - rewrite IH; [reflexivity|]. intros Hin. apply H. now right.
Qed.

Lemma split_on_app sep a b : ~ In sep a -> split_on sep (a ++ sep :: b) = a :: split_on sep b.
Proof.
  induction a as [|c a IH]; intros H; simpl; [now rewrite Ascii.eqb_refl|].
  destruct (Ascii.eqb c sep) eqn:E.
  - apply Ascii.eqb_eq in E. subst. exfalso. apply H. now left.
  - rewrite IH; [reflexivity|]. intros Hin. apply H. now right.
Qed.

Lemma split_on_cons sep c s :
  Ascii.eqb c sep = false ->
  split_on sep (c :: s) = match split_on sep s with
                          | t :: ts => (c :: t) :: ts
                          | [] => [[c]]
                          end.
Proof. intros E. simpl. now rewrite E. Qed.

Lemma split_join_semi x r :
  Forall (fun y => ~ In ";"%char y) (x :: r) ->
  split_on ";"%char (join_with "; " (x :: r)) = x :: map (cons " "%char) r.
Proof.
  revert x. induction r as [|y r IH]; intros x F; inversion F as [|? ? Fx Fr]; subst.
  - simpl. now apply split_on_nosep.
  - change (join_with "; " (x :: y :: r)) with (x ++ ";"%char :: " "%char :: join_with "; " (y :: r)).
    rewrite split_on_app by exact Fx. rewrite split_on_cons by reflexivity.
    rewrite IH by exact Fr. reflexivity.
Qed.

Lemma strip_cons_space c s : is_space c = true -> strip (c :: s) = strip s.
Proof. intros H. unfold strip, strip_by. simpl. now rewrite H. Qed.

(** [split_values] inverts the ["; "]-join that [main] uses for the
    Disease and Gene Aliases cells, for a non-empty list of values that
    carry no surrounding whitespace and no [;]. *)
Theorem split_values_join l :
  l <> [] -> Forall (fun x => strip x = x /\ ~ In ";"%char x) l ->
  split_values (Some (join_with "; " l)) = l.
Proof.
  intros Hne F. destruct l as [|x r]; [congruence|]. unfold split_values.
  rewrite split_join_semi by (eapply Forall_impl; [|exact F]; simpl; tauto).
  inversion F as [|? ? [Hx _] Fr]; subst. simpl. rewrite Hx. f_equal.
  rewrite map_map. rewrite map_ext_in with (g := fun y => y); [apply map_id|].
  intros y Hy. rewrite Forall_forall in Fr. destruct (Fr y Hy) as [Hy' _].
  rewrite strip_cons_space by reflexivity. exact Hy'.
Qed.













(** ** Witnesses of the properties above *)

Lemma extract_genes_hgnc_first_witness :
  hgnc_id gene_tp53 =
  option_map snd (find (fun mt => str_eqb (esym text_tp53 mt) (symbol gene_tp53))
                       (finditer_all match_explicit text_tp53)).
Proof. apply (extract_genes_hgnc_first text_tp53 gene_tp53). vm_compute. left. reflexivity. Defined.

Lemma extract_genes_mentions_witness :
  mentions gene_tp53 =
  map espan (filter (fun mt => str_eqb (esym text_tp53 mt) (symbol gene_tp53))
                    (finditer_all match_explicit text_tp53)) ++
  map cspan (filter (fun mt => str_eqb (csym text_tp53 mt) (symbol gene_tp53))
                    (finditer_all match_context text_tp53)).
Proof. apply (extract_genes_mentions text_tp53 gene_tp53). vm_compute. left. reflexivity. Defined.

Lemma extract_genes_mentions_ordered_witness :
  exists E C, mentions gene_tp53 = E ++ C /\
    ForallOrdPairs span_before E /\ ForallOrdPairs span_before C /\
    Forall (fun m => span_in text_tp53 m /\
                     slice text_tp53 (Z.to_nat (fst m)) (Z.to_nat (snd m)) = symbol gene_tp53) E /\
    Forall (fun m => span_in text_tp53 m /\
                     upper (slice text_tp53 (Z.to_nat (fst m)) (Z.to_nat (snd m))) =
                     symbol gene_tp53) C.
Proof. apply (extract_genes_mentions_ordered text_tp53 gene_tp53). vm_compute. left. reflexivity. Defined.

Lemma associate_diseases_name_source_witness :
  In (lit "Li-Fraumeni syndrome") (disease_list gene_tp53) \/
  exists e, In e (ents doc_lfs) /\ accepts net_all_found json_hgnc e = true /\
            lit "Li-Fraumeni syndrome" = disease_name_of e.
Proof.
  apply (associate_diseases_name_source net_all_found json_hgnc [gene_tp53] doc_lfs 0
           gene_tp53 (mk_gene "TP53" (Some 11998) [(12, 16); (12, 16)]
                        (Some [lit "Li-Fraumeni syndrome"]))).
  - reflexivity.
  - vm_compute. reflexivity.
  - left. reflexivity.
Defined.

Lemma associate_diseases_unmentioned_witness :
  nth_error (associate_diseases net_all_found json_hgnc [gene_tp53; gene_mdm2] doc_lfs) 1 =
  Some gene_mdm2.
Proof.
  apply (associate_diseases_unmentioned net_all_found json_hgnc [gene_tp53; gene_mdm2]
           doc_lfs 1 gene_mdm2).
  - constructor; [intros [H|[]]; discriminate | constructor; [intros [] | constructor]].
  - reflexivity.
  - reflexivity.
Defined.

Lemma fetch_ncbi_aliases_clean_witness :
  Forall (fun a => a <> [] /\ strip a = a /\ ~ In ","%char a) (map lit ["LFS1"; "P53"; "BCC7"]).
Proof.
  apply (fetch_ncbi_aliases_clean net_all_found json_ncbi (lit "7157")).
  vm_compute. reflexivity.
Defined.

Lemma fetch_hgnc_by_id_prefix_witness :
  fetch_hgnc_by_id net_all_found json_hgnc "11998" =
  fetch_hgnc_by_id net_all_found json_hgnc (lit "HGNC:" ++ lit "11998").
Proof.
  apply (fetch_hgnc_by_id_prefix net_all_found json_hgnc (lit "11998")).
  - discriminate.
  - reflexivity.
Defined.

Lemma fetch_hgnc_failure_empty_witness :
  fetch_hgnc_by_symbol net_down json_hgnc "TP53" = Ok (JObj []) /\
  fetch_hgnc_by_id net_down json_hgnc "11998" = Ok (JObj []).
Proof. apply (fetch_hgnc_failure_empty net_down json_hgnc (lit "TP53") (lit "11998")). intros u ps. exact I. Defined.

Lemma fetch_coordinates_non_200_witness :
  fetch_coordinates_by_ensembl net_404 json_hgnc py_str_any "ENSG00000141510" "hg38" = Ok [].
Proof.
  apply (fetch_coordinates_non_200 net_404 json_hgnc py_str_any (lit "ENSG00000141510") (lit "hg38")).
  intros u ps. simpl. discriminate.
Defined.

Lemma fetch_gene_metadata_result_witness :
  md_symbol {| md_hgnc_id := JStr "HGNC:11998"; md_symbol := "TP53";
               md_name := JStr "tumor protein p53"; md_aliases := "LFS1; p53";
               md_coord_hg38 := []; md_coord_hg19 := [] |} = upper "tp53" /\
  exists l, lit "LFS1; p53" = join_with "; " l /\ ForallOrdPairs str_lt l /\
            Forall (fun a => upper (strip a) <> upper "tp53") l.
Proof.
  apply (fetch_gene_metadata_result net_all_found json_hgnc py_str_any (lit "tp53") None).
  vm_compute. reflexivity.
Defined.


Lemma main_csv_rows_witness :
  exists rows, main_from_text net_all_found json_hgnc py_str_any nlp_lfs text_tp53 = Ok (Some rows) /\
  exists rs, rows = write_csv rs /\ rs <> [] /\
  Forall (fun r => exists g ds, In g (extract_genes text_tp53) /\ gi_gene_symbol r = symbol g /\
            ds <> [] /\ gi_disease r = join_with "; " (str_sort ds) /\
            Forall (fun x => exists e, In e (ents (nlp_lfs text_tp53)) /\
                               accepts net_all_found json_hgnc e = true /\ x = disease_name_of e) ds) rs.
Proof.
  destruct (main_from_text net_all_found json_hgnc py_str_any nlp_lfs text_tp53)
    as [[rows|]|e] eqn:E; [| vm_compute in E; discriminate | vm_compute in E; discriminate].
  exists rows. split; [reflexivity|].
  exact (main_csv_rows net_all_found json_hgnc py_str_any nlp_lfs text_tp53 rows E).
Defined.

Lemma split_values_join_witness :
  split_values (Some (join_with "; " (map lit ["LFS1"; "p53"]))) = map lit ["LFS1"; "p53"].
Proof.
  apply split_values_join.
  - discriminate.
  - apply Forall_forall. intros x Hx. simpl in Hx.
    destruct Hx as [<-|[<-|[]]]; split; try (vm_compute; reflexivity);
      intros H; vm_compute in H; intuition discriminate.
Defined.
